(** * MTG Proxy Printer: a shallow embedding of [mtg_proxy.py] and
      [mtg_proxy_gui.py], and the properties of their
      fetch-normalize-layout pipeline.

    Text is modelled by [string]: a character is a code point below 256.
    Python dictionaries are [gmap]s, Python sets are [gset]s, Python
    integers are [Z], loop counters and list indices [nat], floats the
    rationals they stand for.  A call that may raise returns a
    [pyresult]. *)

From Stdlib Require Import ZArith QArith Qround Qpower Ascii String List Bool.
From Stdlib Require Import Lia Lqa ZifyNat.
From stdpp Require Import base gmap strings list.

Local Open Scope string_scope.
Local Open Scope Z_scope.

(** ** Outcome of a Python call that may raise *)

Inductive pyresult (A : Type) : Type :=
| Ok (a : A)
| Raise (exn : string).
Arguments Ok {A} a.
Arguments Raise {A} exn.

(** ** Python [str] methods and character predicates *)

Module Text.

Definition code (c : ascii) : N := N_of_ascii c.

(** [str.isspace] on one character, which is also the regex class \s. *)
Definition isspace (c : ascii) : bool :=
  let n := code c in
  ((9 <=? n) && (n <=? 13) || (28 <=? n) && (n <=? 32)
   || (n =? 133) || (n =? 160))%N.

(** The regex class \d: the decimal digits. *)
Definition isdigit (c : ascii) : bool :=
  let n := code c in ((48 <=? n) && (n <=? 57))%N.

Definition lower_char (c : ascii) : ascii :=
  let n := code c in
  if ((65 <=? n) && (n <=? 90)
      || (192 <=? n) && (n <=? 222) && negb (n =? 215))%N
  then ascii_of_N (n + 32) else c.

Definition upper_char (c : ascii) : ascii :=
  let n := code c in
  if ((97 <=? n) && (n <=? 122)
      || (224 <=? n) && (n <=? 254) && negb (n =? 247))%N
  then ascii_of_N (n - 32) else c.

Fixpoint map_chars (f : ascii -> ascii) (s : string) : string :=
  match s with
  | EmptyString => EmptyString
  | String c s' => String (f c) (map_chars f s')
  end.

(** [s.lower()] *)
Definition lower (s : string) : string := map_chars lower_char s.
(** [s.upper()] *)
Definition upper (s : string) : string := map_chars upper_char s.

Fixpoint lstrip_with (p : ascii -> bool) (s : string) : string :=
  match s with
  | EmptyString => EmptyString
  | String c s' => if p c then lstrip_with p s' else s
  end.

Fixpoint rstrip_with (p : ascii -> bool) (s : string) : string :=
  match s with
  | EmptyString => EmptyString
  | String c s' =>
      match rstrip_with p s' with
      | EmptyString => if p c then EmptyString else String c EmptyString
      | r => String c r
      end
  end.

(** [s.strip()] *)
Definition strip (s : string) : string :=
  lstrip_with isspace (rstrip_with isspace s).

(** [s.rstrip(chars)] for a one-character [chars] *)
Definition rstrip_char (ch : ascii) (s : string) : string :=
  rstrip_with (fun c => Ascii.eqb c ch) s.

(** [s.startswith(ch)] for a one-character prefix *)
Definition startswith_char (ch : ascii) (s : string) : bool :=
  match s with
  | String c _ => Ascii.eqb c ch
  | EmptyString => false
  end.

(** [s.replace(a, b)] for one-character [a] and [b] *)
Definition replace_char (a b : ascii) (s : string) : string :=
  map_chars (fun c => if Ascii.eqb c a then b else c) s.

Fixpoint forall_chars (p : ascii -> bool) (s : string) : bool :=
  match s with
  | EmptyString => true
  | String c s' => p c && forall_chars p s'
  end.

Definition digit_value (c : ascii) : Z := Z.of_N (code c) - 48.

Fixpoint int_digits (acc : Z) (s : string) : Z :=
  match s with
  | EmptyString => acc
  | String c s' => int_digits (10 * acc + digit_value c) s'
  end.

(** [int(s)] on the strings the parser hands to it: a non-empty run of
    decimal digits gives its value, anything else raises [ValueError].
    The interpreter's configurable limit on the length of a converted
    digit string (4300 digits by default in recent versions) is not
    modelled. *)
Definition py_int (s : string) : option Z :=
  match s with
  | EmptyString => None
  | _ => if forall_chars isdigit s then Some (int_digits 0 s) else None
  end.

(** [s.split(sep)] for a one-character separator *)
Fixpoint split_char (sep : ascii) (s : string) : list string :=
  match s with
  | EmptyString => [EmptyString]
  | String c s' =>
      if Ascii.eqb c sep then EmptyString :: split_char sep s'
      else match split_char sep s' with
           | w :: ws => String c w :: ws
           | [] => [String c EmptyString]
           end
  end.

End Text.

(** ** The fragment of Python's [re] that the two patterns use

    A backtracking matcher in continuation-passing style: alternatives
    are tried in the order Python's engine tries them (greedy
    repetitions longest first, lazy ones shortest first), so that the
    groups captured are those of the first successful path. *)

Module Regex.

Inductive cclass : Type :=
| CDigit                                  (* \d *)
| CSpace                                  (* \s *)
| CNotSpace                               (* \S *)
| CAny                                    (* .  (no DOTALL) *)
| CLit (c : ascii)                        (* a literal character *)
| CSet (ranges : list (ascii * ascii)).   (* [a-bc-d...] *)

Inductive regex : Type :=
| Bol                                     (* ^ *)
| Eol                                     (* $ *)
| Chr (c : cclass)
| Plus (greedy : bool) (c : cclass)       (* c+  and c+? *)
| Star (greedy : bool) (c : cclass)       (* c*  and c*? *)
| Opt (r : regex)                         (* r?  and (?:r)? *)
| Cat (r1 r2 : regex)
| Grp (n : nat) (r : regex).              (* the n-th capturing group *)

Definition in_range (c : ascii) (r : ascii * ascii) : bool :=
  ((Text.code (fst r) <=? Text.code c)
   && (Text.code c <=? Text.code (snd r)))%N.

Definition raw_test (cl : cclass) (c : ascii) : bool :=
  match cl with
  | CDigit => Text.isdigit c
  | CSpace => Text.isspace c
  | CNotSpace => negb (Text.isspace c)
  | CAny => negb (Ascii.eqb c "010")
  | CLit a => Ascii.eqb c a
  | CSet rs => existsb (in_range c) rs
  end.

(** With [re.IGNORECASE] a literal or a set also accepts the other
    case of a character; the categories are unaffected. *)
Definition test (ignorecase : bool) (cl : cclass) (c : ascii) : bool :=
  match cl with
  | CLit _ | CSet _ =>
      if ignorecase
      then raw_test cl c || raw_test cl (Text.lower_char c)
           || raw_test cl (Text.upper_char c)
      else raw_test cl c
  | _ => raw_test cl c
  end.

(** The characters of [s] in front of its suffix [s']. *)
Definition consumed (s s' : string) : string :=
  String.substring 0 (String.length s - String.length s')%nat s.

Section Matcher.
Variable ignorecase : bool.
Variable subject : string.
Context {R : Type}.

Fixpoint star_greedy (cl : cclass) (s : string)
    (k : string -> option R) : option R :=
  match s with
  | String c s' =>
      if test ignorecase cl c
      then match star_greedy cl s' k with
           | Some r => Some r
           | None => k s
           end
      else k s
  | EmptyString => k s
  end.

Fixpoint star_lazy (cl : cclass) (s : string)
    (k : string -> option R) : option R :=
  match k s with
  | Some r => Some r
  | None =>
      match s with
      | String c s' =>
          if test ignorecase cl c then star_lazy cl s' k else None
      | EmptyString => None
      end
  end.

Definition star (greedy : bool) :=
  if greedy then star_greedy else star_lazy.

Definition plus (greedy : bool) (cl : cclass) (s : string)
    (k : string -> option R) : option R :=
  match s with
  | String c s' =>
      if test ignorecase cl c then star greedy cl s' k else None
  | EmptyString => None
  end.

Fixpoint rmatch (r : regex) (s : string) (cs : gmap nat string)
    (k : string -> gmap nat string -> option R) : option R :=
  match r with
  | Bol =>
      if (String.length s =? String.length subject)%nat
      then k s cs else None
  | Eol =>
      match s with
      | EmptyString => k s cs
      | String "010" EmptyString => k s cs
      | _ => None
      end
  | Chr cl =>
      match s with
      | String c s' => if test ignorecase cl c then k s' cs else None
      | EmptyString => None
      end
  | Plus g cl => plus g cl s (fun s' => k s' cs)
  | Star g cl => star g cl s (fun s' => k s' cs)
  | Opt r1 =>
      match rmatch r1 s cs k with
      | Some x => Some x
      | None => k s cs
      end
  | Cat r1 r2 =>
      rmatch r1 s cs (fun s1 cs1 => rmatch r2 s1 cs1 k)
  | Grp n r1 =>
      rmatch r1 s cs (fun s1 cs1 => k s1 (<[n := consumed s s1]> cs1))
  end.
End Matcher.

(** [re.match(pattern, s, flags)]: anchored at the start of [s], the
    result is the table of captured groups. *)
Definition re_match (r : regex) (s : string) (ignorecase : bool)
    : option (gmap nat string) :=
  rmatch ignorecase s r s ∅ (fun _ cs => Some cs).

(** [m.group(n)] *)
Definition group (m : gmap nat string) (n : nat) : option string := m !! n.

(** What a successful path of the matcher means: [matches ic subject r
    s cs s' cs'] when [r] accepts the characters of [s] in front of its
    suffix [s'] and turns the group table [cs] into [cs']. *)
Inductive matches (ic : bool) (subject : string)
    : regex -> string -> gmap nat string -> string -> gmap nat string
      -> Prop :=
| M_Bol s cs :
    String.length s = String.length subject ->
    matches ic subject Bol s cs s cs
| M_Eol s cs :
    s = EmptyString \/ s = String "010" EmptyString ->
    matches ic subject Eol s cs s cs
| M_Chr cl c s cs :
    test ic cl c = true ->
    matches ic subject (Chr cl) (String c s) cs s cs
| M_Plus g cl w s cs :
    w <> EmptyString ->
    Text.forall_chars (test ic cl) w = true ->
    matches ic subject (Plus g cl) (w +:+ s) cs s cs
| M_Star g cl w s cs :
    Text.forall_chars (test ic cl) w = true ->
    matches ic subject (Star g cl) (w +:+ s) cs s cs
| M_OptSkip r s cs :
    matches ic subject (Opt r) s cs s cs
| M_OptTake r s cs s' cs' :
    matches ic subject r s cs s' cs' ->
    matches ic subject (Opt r) s cs s' cs'
| M_Cat r1 r2 s cs s1 cs1 s2 cs2 :
    matches ic subject r1 s cs s1 cs1 ->
    matches ic subject r2 s1 cs1 s2 cs2 ->
    matches ic subject (Cat r1 r2) s cs s2 cs2
| M_Grp n r s cs s' cs' :
    matches ic subject r s cs s' cs' ->
    matches ic subject (Grp n r) s cs s' (<[n := consumed s s']> cs').

End Regex.

Declare Scope regex_scope.
Delimit Scope regex_scope with re.
Bind Scope regex_scope with Regex.regex.
Notation "r1 ~> r2" := (Regex.Cat r1 r2)
  (at level 60, right associativity) : regex_scope.

(** ** Decklist parsers *)

(** [r'^(\d+)x?\s+(.+)$'], the simple-format pattern of both programs. *)
Definition simple_pattern : Regex.regex :=
  (Regex.Bol
   ~> Regex.Grp 1 (Regex.Plus true Regex.CDigit)
   ~> Regex.Opt (Regex.Chr (Regex.CLit "x"))
   ~> Regex.Plus true Regex.CSpace
   ~> Regex.Grp 2 (Regex.Plus true Regex.CAny)
   ~> Regex.Eol)%re.

(** The printing-qualified pattern of the graphical program, piece by
    piece: ^ , group 1 = \d+ , x? , \s+ , group 2 = .+? , \s+ , an
    opening parenthesis, group 3 = [A-Za-z0-9]+ , a closing parenthesis,
    \s+ , group 4 = \S+ , an optional non-capturing group made of \s+ ,
    a star, [A-Z]+ and a star, then \s* and $ . *)
Definition moxfield_pattern : Regex.regex :=
  (Regex.Bol
   ~> Regex.Grp 1 (Regex.Plus true Regex.CDigit)
   ~> Regex.Opt (Regex.Chr (Regex.CLit "x"))
   ~> Regex.Plus true Regex.CSpace
   ~> Regex.Grp 2 (Regex.Plus false Regex.CAny)
   ~> Regex.Plus true Regex.CSpace
   ~> Regex.Chr (Regex.CLit "(")
   ~> Regex.Grp 3 (Regex.Plus true
        (Regex.CSet [("A", "Z"); ("a", "z"); ("0", "9")]%char))
   ~> Regex.Chr (Regex.CLit ")")
   ~> Regex.Plus true Regex.CSpace
   ~> Regex.Grp 4 (Regex.Plus true Regex.CNotSpace)
   ~> Regex.Opt (Regex.Plus true Regex.CSpace
                 ~> Regex.Chr (Regex.CLit "*")
                 ~> Regex.Plus true (Regex.CSet [("A", "Z")]%char)
                 ~> Regex.Chr (Regex.CLit "*"))
   ~> Regex.Star true Regex.CSpace
   ~> Regex.Eol)%re.

(** [int(m.group(n))] *)
Definition group_int (m : gmap nat string) (n : nat) : pyresult Z :=
  match Regex.group m n with
  | Some g =>
      match Text.py_int g with
      | Some q => Ok q
      | None => Raise "ValueError"
      end
  | None => Raise "TypeError"
  end.

(** [m.group(n).strip()] *)
Definition group_strip (m : gmap nat string) (n : nat) : pyresult string :=
  match Regex.group m n with
  | Some g => Ok (Text.strip g)
  | None => Raise "AttributeError"
  end.

Definition bind {A B : Type} (x : pyresult A) (f : A -> pyresult B)
    : pyresult B :=
  match x with
  | Ok a => f a
  | Raise e => Raise e
  end.

Notation "x <- c1 ;; c2" := (bind c1 (fun x => c2))
  (at level 100, c1 at next level, right associativity).

(** The truth value of an optional string: [None] and the empty string
    are false. *)
Definition truthy (o : option string) : bool :=
  match o with
  | Some (String _ _) => true
  | _ => false
  end.

(** ** Catalog records and the choice of the artwork reference *)

(** One face of a multi-faced card: the dictionary under ['card_faces']
    may or may not carry an ['image_uris'] table. *)
Record Face : Type := mkFace {
  face_image_uris : option (gmap string string)
}.

(** The keys of a catalog response that the programs read.  A missing key
    is [None]. *)
Record CardData : Type := mkCardData {
  cd_name : option string;
  cd_set : option string;
  cd_collector_number : option string;
  cd_image_uris : option (gmap string string);
  cd_card_faces : option (list Face)
}.

(** [for key in keys: if key in uris: return uris[key]] *)
Fixpoint first_available (keys : list string) (uris : gmap string string)
    : option string :=
  match keys with
  | [] => None
  | key :: rest =>
      match uris !! key with
      | Some url => Some url
      | None => first_available rest uris
      end
  end.

(** The two lookups of [get_image_url], for a list of keys: the
    top-level table first, then the table of the first face. *)
Definition image_url_for (keys : list string) (card_data : CardData)
    : option string :=
  let top :=
    match cd_image_uris card_data with
    | Some uris => first_available keys uris
    | None => None
    end in
  match top with
  | Some url => Some url
  | None =>
      match cd_card_faces card_data with
      | Some (face :: _) =>
          match face_image_uris face with
          | Some uris => first_available keys uris
          | None => None
          end
      | _ => None
      end
  end.

(** ** Cache store *)

(** The character class of [sanitize_filename]: the characters
    less-than, greater-than, colon, double quote, slash, backslash, bar,
    question mark and star. *)
Definition reserved_char (c : ascii) : bool :=
  existsb (Ascii.eqb c)
    ["<"; ">"; ":"; "034"; "/"; "\"; "|"; "?"; "*"]%char.

(** [re.sub(r'[...]', '_', name.lower().replace(' ', '_'))] *)
Definition sanitize_filename (name : string) : string :=
  Text.map_chars (fun c => if reserved_char c then "_"%char else c)
    (Text.replace_char " " "_" (Text.lower name)).

(** The cache directory (file name to content) and the log of the URLs
    requested from the network, oldest first. *)
Record World : Type := mkWorld {
  files : gmap string string;
  requests_made : list string
}.

(** The tail of [download_image], common to both programs: return the
    cached path when allowed and present, otherwise request the URL and
    write the body before returning the path; a failed request returns
    [None]. [fetch url] is what [requests.get] followed by
    [raise_for_status] gives at the time of the call: [Some content], or
    [None] for a [RequestException]. *)
Definition fetch_to (fetch : string -> option string) (w : World)
    (url cache_path : string) (use_cache : bool) : option string * World :=
  if use_cache && bool_decide (is_Some (files w !! cache_path))
  then (Some cache_path, w)
  else
    let w1 := mkWorld (files w) (requests_made w ++ [url]) in
    match fetch url with
    | Some content =>
        (Some cache_path,
         mkWorld (<[cache_path := content]> (files w1)) (requests_made w1))
    | None => (None, w1)
    end.

(** ** Image normalizer *)

(** A pixel as the imaging library's RGBA view of it: the colour the
    source pixel stands for (the palette entry for mode P, the grey level
    three times for L and LA, ...) and its opacity, 255 when the mode
    carries none. *)
Record Pixel : Type := mkPixel {
  red : Z;
  green : Z;
  blue : Z;
  alpha : Z
}.

(** A decoded image: the mode string, the size and the raster. *)
Record Image : Type := mkImage {
  mode : string;
  width : Z;
  height : Z;
  pixel : Z -> Z -> Pixel
}.

Definition CARD_WIDTH_INCHES : Q := 2.5%Q.
Definition CARD_HEIGHT_INCHES : Q := 3.5%Q.
Definition DEFAULT_DPI : Z := 300.

(** *** Floating-point numbers

    A float is modelled by the rational number it stands for, and an
    operation by the exact operation followed by the rounding to the
    nearest binary64 value, ties to even.  The exponent range is not
    modelled: overflow and underflow need magnitudes beyond 10^300. *)

(** The nearest integer, ties to even. *)
Definition round_half_even (s : Q) : Z :=
  let q := Qfloor s in
  match (s - inject_Z q ?= 1 # 2)%Q with
  | Lt => q
  | Gt => q + 1
  | Eq => if Z.even q then q else q + 1
  end.

(** For a positive [x], the exponent [e] with
    [2^52 <= x / 2^e < 2^53]. *)
Definition binade (x : Q) : Z :=
  let e0 := Z.log2 (Qnum x) - Z.log2 (Z.pos (Qden x)) - 52 in
  if Qlt_le_dec (x / 2 ^ e0) (2 ^ 52) then e0 - 1 else e0.

(** The binary64 value nearest to [x]: 53 significant bits. *)
Definition binary64 (x : Q) : Q :=
  match Qnum x with
  | 0 => 0%Q
  | Z.pos _ =>
      let e := binade x in
      Qred (inject_Z (round_half_even (x / 2 ^ e)) * 2 ^ e)
  | Z.neg _ =>
      let e := binade (- x) in
      Qred (- (inject_Z (round_half_even (- x / 2 ^ e)) * 2 ^ e))
  end.

(** [float(n)] *)
Definition float_of_int (n : Z) : Q := binary64 (inject_Z n).

(** [x * y] on floats *)
Definition fmul (x y : Q) : Q := binary64 (x * y).

(** [x / y] on floats, and on integers, where the quotient of the two
    integers is rounded once: division by zero raises. *)
Definition true_div (x y : Q) : pyresult Q :=
  if Qeq_bool y 0 then Raise "ZeroDivisionError"
  else Ok (binary64 (x / y)).

(** [int(x)]: truncation towards zero. *)
Definition int_of (x : Q) : Z := Z.quot (Qnum x) (Z.pos (Qden x)).

Definition white : Pixel := mkPixel 255 255 255 255.
Definition black : Pixel := mkPixel 0 0 0 255.

(** [Image.new('RGB', size, (255, 255, 255))] *)
Definition Image_new_white (size : Z * Z) : Image :=
  mkImage "RGB" (fst size) (snd size) (fun _ _ => white).

(** [img.convert('RGBA')]: every pixel keeps its colour and opacity. *)
Definition convert_RGBA (img : Image) : Image :=
  mkImage "RGBA" (width img) (height img) (pixel img).

(** [img.convert('RGB')]: every pixel keeps its colour, the opacity is
    discarded. *)
Definition convert_RGB (img : Image) : Image :=
  mkImage "RGB" (width img) (height img)
    (fun x y => let p := pixel img x y in
                mkPixel (red p) (green p) (blue p) 255).

(** The library's 8-bit blend of [fg] over [bg] through [mask]:
    the rounded value of [(bg * (255 - mask) + fg * mask) / 255]. *)
Definition blend8 (mask bg fg : Z) : Z :=
  let tmp := bg * (255 - mask) + fg * mask + 128 in
  Z.shiftr (Z.shiftr tmp 8 + tmp) 8.

(** [background.paste(img, mask=img.split()[-1])] for an RGBA [img] of
    the size of [background], and [background.paste(img, mask=None)]. *)
Definition paste (background img : Image) (use_alpha_mask : bool) : Image :=
  mkImage (mode background) (width background) (height background)
    (fun x y =>
       let b := pixel background x y in
       let p := pixel img x y in
       if use_alpha_mask
       then mkPixel (blend8 (alpha p) (red b) (red p))
                    (blend8 (alpha p) (green b) (green p))
                    (blend8 (alpha p) (blue b) (blue p)) 255
       else mkPixel (red p) (green p) (blue p) 255).

(** [img.resize((w, h), Image.Resampling.LANCZOS)]: the filter is a
    parameter, the mode is kept and the size is the one asked for; a
    size below one pixel raises. *)
Definition resize (resample : Image -> Z -> Z -> Z -> Z -> Pixel)
    (img : Image) (new_width new_height : Z) : pyresult Image :=
  if (new_width <? 1) || (new_height <? 1)
  then Raise "ValueError"
  else Ok (mkImage (mode img) new_width new_height
             (resample img new_width new_height)).

(** [img.crop((left, top, right, bottom))]: the result has the size of
    the box; what lies outside the source is filled with zeros. *)
Definition crop (img : Image) (left top right bottom : Z) : pyresult Image :=
  if (right <? left) || (bottom <? top)
  then Raise "ValueError"
  else Ok (mkImage (mode img) (right - left) (bottom - top)
             (fun x y =>
                let sx := x + left in
                let sy := y + top in
                if (0 <=? sx) && (sx <? width img)
                   && (0 <=? sy) && (sy <? height img)
                then pixel img sx sy
                else if String.eqb (mode img) "RGBA" then mkPixel 0 0 0 0
                     else black)).

Definition target_width (dpi : Z) : Z :=
  int_of (fmul CARD_WIDTH_INCHES (float_of_int dpi)).
Definition target_height (dpi : Z) : Z :=
  int_of (fmul CARD_HEIGHT_INCHES (float_of_int dpi)).

(** The mode handling at the head of [resize_card_image]. *)
Definition to_rgb (img : Image) : Image :=
  if String.eqb (mode img) "RGBA" || String.eqb (mode img) "P"
  then
    let background := Image_new_white (width img, height img) in
    let img1 := if String.eqb (mode img) "P" then convert_RGBA img
                else img in
    paste background img1 (String.eqb (mode img1) "RGBA")
  else if negb (String.eqb (mode img) "RGB")
  then convert_RGB img
  else img.

(** The size to which the image is scaled before the crop. *)
Definition scaled_size (w h tw th : Z) : pyresult (Z * Z) :=
  img_ratio <- true_div (inject_Z w) (inject_Z h) ;;
  target_ratio <- true_div (inject_Z tw) (inject_Z th) ;;
  if Qlt_le_dec target_ratio img_ratio
  then
    let new_height := th in
    let new_width := int_of (fmul (float_of_int new_height) img_ratio) in
    Ok (new_width, new_height)
  else
    let new_width := tw in
    new_height_f <- true_div (float_of_int new_width) img_ratio ;;
    Ok (new_width, int_of new_height_f).

Section Normalizer.
(** The resampling filter of the imaging library. *)
Variable resample : Image -> Z -> Z -> Z -> Z -> Pixel.

(** [resize_card_image], from the decoded image on. *)
Definition resize_card_image (img0 : Image) (dpi : Z) : pyresult Image :=
  let target_width := target_width dpi in
  let target_height := target_height dpi in
  let img := to_rgb img0 in
  sz <- scaled_size (width img) (height img) target_width target_height ;;
  let '(new_width, new_height) := sz in
  img <- resize resample img new_width new_height ;;
  let left := (new_width - target_width) / 2 in
  let top := (new_height - target_height) / 2 in
  crop img left top (left + target_width) (top + target_height).
End Normalizer.

(** ** Sheet layout *)

Definition CARDS_PER_ROW : nat := 3.
Definition CARDS_PER_COL : nat := 3.
Definition CARDS_PER_PAGE : nat := CARDS_PER_ROW * CARDS_PER_COL.

(** Lengths in points: the LETTER page and a card at 72 points per
    inch. *)
Definition page_width : Z := 612.
Definition page_height : Z := 792.
Definition card_width_pts : Z := 180.
Definition card_height_pts : Z := 252.
Definition grid_width : Z := Z.of_nat CARDS_PER_ROW * card_width_pts.
Definition grid_height : Z := Z.of_nat CARDS_PER_COL * card_height_pts.
Definition margin_x : Z := (page_width - grid_width) / 2.
Definition margin_y : Z := (page_height - grid_height) / 2.

Section Layout.
(** The type of a card, the pair of a name and an image. *)
Context {Card : Type}.

(** One [drawImage] call: the card drawn, its index in the input, the
    grid cell of the loop and the position on the page. *)
Record Placement : Type := mkPlacement {
  pl_card : Card;
  pl_index : nat;
  pl_row : nat;
  pl_column : nat;
  pl_x : Z;
  pl_y : Z
}.

(** The document writer: the pages closed by [showPage] and the
    drawings of the page being filled. *)
Record Canvas : Type := mkCanvas {
  closed_pages : list (list Placement);
  open_page : list Placement
}.

Definition new_canvas : Canvas := mkCanvas [] [].

Definition drawImage (c : Canvas) (p : Placement) : Canvas :=
  mkCanvas (closed_pages c) (open_page c ++ [p]).

Definition showPage (c : Canvas) : Canvas :=
  mkCanvas (closed_pages c ++ [open_page c]) [].

(** [c.save()]: a page with drawings on it is closed first; the result
    is the list of the pages of the document. *)
Definition save (c : Canvas) : list (list Placement) :=
  match open_page c with
  | [] => closed_pages c
  | _ => closed_pages (showPage c)
  end.

Variable cards : list Card.

Definition total_cards : nat := length cards.

(** The loop state: [card_index] and the canvas. *)
Definition loop_state : Type := (nat * Canvas)%type.

(** The body of the inner loop after the guard. *)
Definition place_card (st : loop_state) (row col : nat)
    : pyresult loop_state :=
  let '(card_index, c) := st in
  match cards !! card_index with
  | None => Raise "IndexError"
  | Some card =>
      let x := margin_x + Z.of_nat col * card_width_pts in
      let y := page_height - margin_y
               - (Z.of_nat row + 1) * card_height_pts in
      Ok (S card_index,
          drawImage c (mkPlacement card card_index row col x y))
  end.

(** [for col in range(CARDS_PER_ROW)] with its [break]. *)
Fixpoint for_col (cols : list nat) (row : nat) (st : loop_state)
    : pyresult loop_state :=
  match cols with
  | [] => Ok st
  | col :: rest =>
      if (total_cards <=? fst st)%nat then Ok st
      else st1 <- place_card st row col ;; for_col rest row st1
  end.

(** [for row in range(CARDS_PER_COL)] *)
Fixpoint for_row (rows : list nat) (st : loop_state)
    : pyresult loop_state :=
  match rows with
  | [] => Ok st
  | row :: rest =>
      st1 <- for_col (seq 0 CARDS_PER_ROW) row st ;; for_row rest st1
  end.

(** [while card_index < total_cards]; [None] when the fuel runs out
    before the loop ends. *)
Fixpoint while_cards (fuel : nat) (st : loop_state)
    : option (pyresult loop_state) :=
  if (fst st <? total_cards)%nat
  then
    match fuel with
    | O => None
    | S fuel' =>
        match for_row (seq 0 CARDS_PER_COL) st with
        | Raise e => Some (Raise e)
        | Ok st1 =>
            let st2 :=
              if (fst st1 <? total_cards)%nat
              then (fst st1, showPage (snd st1)) else st1 in
            while_cards fuel' st2
        end
    end
  else Some (Ok st).

(** [create_pdf]: the pages of the document written. *)
Definition create_pdf : option (pyresult (list (list Placement))) :=
  match while_cards total_cards (0%nat, new_canvas) with
  | Some (Ok st) => Some (Ok (save (snd st)))
  | Some (Raise e) => Some (Raise e)
  | None => None
  end.

End Layout.

(** The layout as a list of entries [(page_index, placement)], in the
    order of the document. *)
Definition placement_entries {Card : Type}
    (pages : list (list (@Placement Card))) : list (nat * @Placement Card) :=
  concat (imap (fun page_index page => map (pair page_index) page) pages).

(** ** Pipeline orchestration *)

(** What the programs ask of the outside: the two catalog queries, the
    artwork download, the decoding of an image file and the resampling
    filter.  A catalog answer [None] is a failed request or an empty
    response. *)
Record Env : Type := mkEnv {
  env_fetch_card_by_set : string -> string -> option CardData;
  env_fetch_card_data : string -> option CardData;
  env_http_get : string -> option string;
  env_image_open : string -> option Image;
  env_resample : Image -> Z -> Z -> Z -> Z -> Pixel
}.

(** A catalog query, as logged by the model. *)
Inductive Query : Type :=
| ByPrinting (set_code collector_number : string)
| ByFuzzyName (card_name : string).

(** The state of a run: the cache directory and network log, the
    images collected for the document, the names recorded as errors and
    the catalog queries made, oldest first. *)
Record RunState : Type := mkRun {
  run_world : World;
  card_images : list (string * Image);
  errors : list string;
  queries : list Query
}.

Definition log_error (st : RunState) (card_name : string) : RunState :=
  mkRun (run_world st) (card_images st) (errors st ++ [card_name])
    (queries st).

Definition log_query (st : RunState) (q : Query) : RunState :=
  mkRun (run_world st) (card_images st) (errors st) (queries st ++ [q]).

(** [Image.open(image_path)] followed by the rest of
    [resize_card_image]. *)
Definition open_and_resize (env : Env) (w : World) (image_path : string)
    (dpi : Z) : pyresult Image :=
  match files w !! image_path with
  | None => Raise "FileNotFoundError"
  | Some content =>
      match env_image_open env content with
      | None => Raise "UnidentifiedImageError"
      | Some img => resize_card_image (env_resample env) img dpi
      end
  end.

(** [for i in range(quantity): images.append((actual_name, pdf_image))] *)
Definition append_copies (images : list (string * Image))
    (actual_name : string) (img : Image) (quantity : Z)
    : list (string * Image) :=
  images ++ repeat (actual_name, img) (Z.to_nat quantity).

(** [d.get(key, default)] *)
Definition get_default (field deflt : option string) : option string :=
  match field with
  | Some v => Some v
  | None => deflt
  end.

Definition get_name (field : option string) (deflt : string) : string :=
  match field with
  | Some v => v
  | None => deflt
  end.

(** ** mtg_proxy.py, the command-line program *)

Module Cli.

(** The pair [(name, quantity)]; the name is [None] for a skipped
    line. *)
Definition entry : Type := (option string * Z)%type.

Definition parse_card_entry (entry0 : string) : pyresult entry :=
  let entry := Text.strip entry0 in
  if String.eqb entry "" || Text.startswith_char "#" entry
  then Ok (None, 0)
  else
    match Regex.re_match simple_pattern entry true with
    | Some m =>
        quantity <- group_int m 1 ;;
        name <- group_strip m 2 ;;
        Ok (Some name, quantity)
    | None => Ok (Some entry, 1)
    end.


Definition get_image_url (card_data : CardData) : option string :=
  image_url_for ["png"; "large"; "normal"] card_data.

Definition cache_path (card_name : string) : string :=
  sanitize_filename card_name +:+ ".png".

Definition download_image (fetch : string -> option string) (w : World)
    (url card_name : string) (use_cache : bool) : option string * World :=
  fetch_to fetch w url (cache_path card_name) use_cache.

(** The body of the loop of [main]. *)
Definition process_entry (env : Env) (use_cache : bool) (dpi : Z)
    (st : RunState) (entry : string * Z) : pyresult RunState :=
  let '(card_name, quantity) := entry in
  let st1 := log_query st (ByFuzzyName card_name) in
  match env_fetch_card_data env card_name with
  | None => Ok st1
  | Some cd =>
      let actual_name := get_name (cd_name cd) card_name in
      if negb (truthy (get_image_url cd))
      then Ok st1
      else
        match get_image_url cd with
        | None => Ok st1
        | Some image_url =>
            let '(image_path, w) :=
              download_image (env_http_get env) (run_world st1)
                image_url actual_name use_cache in
            let st2 :=
              mkRun w (card_images st1) (errors st1) (queries st1) in
            match image_path with
            | None => Ok st2
            | Some path =>
                resized_img <- open_and_resize env w path dpi ;;
                Ok (mkRun w
                      (append_copies (card_images st2) actual_name
                         resized_img quantity)
                      (errors st2) (queries st2))
            end
        end
  end.


End Cli.

(** ** mtg_proxy_gui.py, the graphical program *)

Module Gui.

Definition MOXFIELD_SECTIONS : gset string :=
  {[ "deck"; "sideboard"; "commander"; "companions"; "maybeboard";
     "mainboard"; "considering"; "acquired" ]}.

(** The tuple [(name, quantity, set_code, collector_number)]. *)
Definition entry : Type :=
  (option string * Z * option string * option string)%type.

Definition parse_card_entry (entry0 : string) : pyresult entry :=
  let entry := Text.strip entry0 in
  if String.eqb entry "" || Text.startswith_char "#" entry
  then Ok (None, 0, None, None)
  else if bool_decide
            (Text.rstrip_char ":" (Text.lower entry) ∈ MOXFIELD_SECTIONS)
  then Ok (None, 0, None, None)
  else
    match Regex.re_match moxfield_pattern entry true with
    | Some mox_match =>
        quantity <- group_int mox_match 1 ;;
        name <- group_strip mox_match 2 ;;
        set_code <- group_strip mox_match 3 ;;
        collector_num <- group_strip mox_match 4 ;;
        Ok (Some name, quantity, Some (Text.lower set_code),
            Some collector_num)
    | None =>
        match Regex.re_match simple_pattern entry true with
        | Some m =>
            quantity <- group_int m 1 ;;
            name <- group_strip m 2 ;;
            Ok (Some name, quantity, None, None)
        | None => Ok (Some entry, 1, None, None)
        end
    end.

(** A card request as [parse_decklist] stores it. *)
Record CardRequest : Type := mkRequest {
  req_name : string;
  req_quantity : Z;
  req_set_code : option string;
  req_collector_number : option string
}.

(** The loop of [parse_decklist] over the lines of the text. *)
Fixpoint parse_lines (lines : list string)
    : pyresult (list CardRequest) :=
  match lines with
  | [] => Ok []
  | line :: rest =>
      e <- parse_card_entry line ;;
      cards <- parse_lines rest ;;
      match e with
      | (Some name, qty, set_code, col_num) =>
          if truthy (Some name)
          then Ok (mkRequest name qty set_code col_num :: cards)
          else Ok cards
      | (None, _, _, _) => Ok cards
      end
  end.

Definition parse_decklist (content : string)
    : pyresult (list CardRequest) :=
  parse_lines (Text.split_char "010" content).

Definition get_image_url (card_data : CardData) (size : string)
    : option string :=
  image_url_for [size; "large"; "normal"; "small"] card_data.

(** The file name of the graphical program: name, set and collector
    number when both of the latter are true, the name alone otherwise. *)
Definition cache_path (card_name : string)
    (set_code collector_number : option string) : string :=
  match set_code, collector_number with
  | Some sc, Some cn =>
      if truthy set_code && truthy collector_number
      then sanitize_filename (card_name +:+ "_" +:+ sc +:+ "_" +:+ cn)
           +:+ ".png"
      else sanitize_filename card_name +:+ ".png"
  | _, _ => sanitize_filename card_name +:+ ".png"
  end.

Definition download_image (fetch : string -> option string) (w : World)
    (url card_name : string) (use_cache : bool)
    (set_code collector_number : option string) : option string * World :=
  fetch_to fetch w url (cache_path card_name set_code collector_number)
    use_cache.

(** The two catalog lookups of [fetch_cards_thread] for one entry. *)
Definition resolve (env : Env) (st : RunState) (r : CardRequest)
    : option CardData * RunState :=
  let set_code := req_set_code r in
  let collector_num := req_collector_number r in
  let '(card_data, st1) :=
    match set_code, collector_num with
    | Some sc, Some cn =>
        if truthy set_code && truthy collector_num
        then (env_fetch_card_by_set env sc cn,
              log_query st (ByPrinting sc cn))
        else (None, st)
    | _, _ => (None, st)
    end in
  match card_data with
  | Some cd => (Some cd, st1)
  | None =>
      (env_fetch_card_data env (req_name r),
       log_query st1 (ByFuzzyName (req_name r)))
  end.

(** The body of the loop of [fetch_cards_thread]; an exception ends
    the thread. *)
Definition process_entry (env : Env) (st : RunState)
    (r : CardRequest) : pyresult RunState :=
  let card_name := req_name r in
  let quantity := req_quantity r in
  let '(card_data, st1) := resolve env st r in
  match card_data with
  | None => Ok (log_error st1 card_name)
  | Some cd =>
      let actual_name := get_name (cd_name cd) card_name in
      let actual_set := get_default (cd_set cd) (req_set_code r) in
      let actual_num :=
        get_default (cd_collector_number cd)
          (req_collector_number r) in
      if negb (truthy (get_image_url cd "large"))
      then Ok (log_error st1 card_name)
      else
        match get_image_url cd "large" with
        | None => Ok (log_error st1 card_name)
        | Some image_url_large =>
            let '(image_path, w) :=
              download_image (env_http_get env) (run_world st1)
                image_url_large actual_name true actual_set actual_num in
            let st2 :=
              mkRun w (card_images st1) (errors st1) (queries st1) in
            match image_path with
            | None => Ok (log_error st2 card_name)
            | Some path =>
                pdf_image <- open_and_resize env w path DEFAULT_DPI ;;
                Ok (mkRun w
                      (append_copies (card_images st2) actual_name
                         pdf_image quantity)
                      (errors st2) (queries st2))
            end
        end
  end.

(** [for entry in card_entries] *)
Fixpoint fetch_cards_thread (env : Env) (st : RunState)
    (card_entries : list CardRequest) : pyresult RunState :=
  match card_entries with
  | [] => Ok st
  | r :: rest =>
      st1 <- process_entry env st r ;;
      fetch_cards_thread env st1 rest
  end.

End Gui.

(** ** Notions used in the statements *)

(** The longest run of decimal digits at the head of a string: the count
    of a decklist line, when there is one. *)
Fixpoint leading_digits (s : string) : string :=
  match s with
  | String c s' =>
      if Text.isdigit c then String c (leading_digits s') else EmptyString
  | EmptyString => EmptyString
  end.

(** A string contains a whitespace character. *)
Fixpoint has_space (s : string) : bool :=
  match s with
  | String c s' => Text.isspace c || has_space s'
  | EmptyString => false
  end.


(** The five lines of the parsing scenario, as lines and as one text. *)
Definition five_lines : list string :=
  ["4x Lightning Bolt"; "1 Sol Ring (MH3) 532"; "# comment"; "";
   "Sideboard"].

Definition five_lines_text : string :=
  String.concat (String "010" EmptyString) five_lines.


(** The choice by precedence, in words: the URL of the first key of the
    list that is available in the table, or nothing when none is. *)
Inductive chosen_from (keys : list string) (uris : gmap string string)
    : option string -> Prop :=
| chosen_first (higher : list string) (key : string) (lower : list string)
    (url : string) :
    keys = (higher ++ key :: lower)%list ->
    uris !! key = Some url ->
    (forall k, In k higher -> uris !! k = None) ->
    chosen_from keys uris (Some url)
| chosen_none :
    (forall k, In k keys -> uris !! k = None) ->
    chosen_from keys uris None.

(** The renditions of the record itself and those of its first face; a
    missing table is an empty one. *)
Definition top_renditions (card_data : CardData) : gmap string string :=
  default ∅ (cd_image_uris card_data).

Definition first_face_renditions (card_data : CardData)
    : gmap string string :=
  match cd_card_faces card_data with
  | Some (face :: _) => default ∅ (face_image_uris face)
  | _ => ∅
  end.

(** The artwork reference chosen by the precedence [keys]: from the
    top-level renditions when one of the keys is available there, from
    those of the first face otherwise. *)
Definition artwork_by_precedence (keys : list string)
    (card_data : CardData) (result : option string) : Prop :=
  exists top,
    chosen_from keys (top_renditions card_data) top
    /\ match top with
       | Some url => result = Some url
       | None => chosen_from keys (first_face_renditions card_data) result
       end.

(** A record that offers both a png and a large rendition. *)
Definition card_with_png_and_large : CardData :=
  mkCardData (Some "Sol Ring") (Some "mh3") (Some "532")
    (Some (<["png" := "https://img/sol.png"]>
             (<["large" := "https://img/sol-large.jpg"]> ∅)))
    None.

(** A set code or collector number written with lowercase letters and
    digits only, and not empty. *)
Definition lower_alnum (c : ascii) : bool :=
  let n := Text.code c in
  ((48 <=? n) && (n <=? 57) || (97 <=? n) && (n <=? 122))%N.

Definition plain_code (s : string) : bool :=
  negb (String.eqb s EmptyString) && Text.forall_chars lower_alnum s.

(** What [sanitize_filename] does to one character. *)
Definition sanitize_char (c : ascii) : ascii :=
  let c1 := Text.lower_char c in
  let c2 := if Ascii.eqb c1 " " then "_"%char else c1 in
  if reserved_char c2 then "_"%char else c2.

(** A string free of underscores. *)
Definition no_underscore (s : string) : bool :=
  Text.forall_chars (fun c => negb (Ascii.eqb c "_")) s.

(** The compositing of a pixel over opaque white, as the paste through
    the alpha band computes it. *)
Definition composited_on_white (p : Pixel) : Pixel :=
  mkPixel (blend8 (alpha p) 255 (red p))
          (blend8 (alpha p) 255 (green p))
          (blend8 (alpha p) 255 (blue p)) 255.

(** The colour of a pixel with its opacity discarded. *)
Definition alpha_dropped (p : Pixel) : Pixel :=
  mkPixel (red p) (green p) (blue p) 255.


(** A sample filter, nearest neighbour, to run the normalizer on
    examples. *)
Definition nearest (img : Image) (new_width new_height x y : Z) : Pixel :=
  pixel img (x * width img / new_width) (y * height img / new_height).

(** The placement of card number [k] of the input in the grid cell
    [(row, col)]. *)
Definition cell {Card : Type} (k row col : nat) (card : Card)
    : @Placement Card :=
  mkPlacement card k row col
    (margin_x + Z.of_nat col * card_width_pts)
    (page_height - margin_y - (Z.of_nat row + 1) * card_height_pts).

(** Page [p] of the row-major layout: the next [CARDS_PER_PAGE] cards
    from card number [p * CARDS_PER_PAGE] on, the [j]-th of them in row
    [j / CARDS_PER_ROW] and column [j mod CARDS_PER_ROW]. *)
Definition page_of {Card : Type} (cards : list Card) (p : nat)
    : list (@Placement Card) :=
  imap (fun j card =>
          cell (p * CARDS_PER_PAGE + j) (j / CARDS_PER_ROW)
            (j mod CARDS_PER_ROW) card)
    (take CARDS_PER_PAGE (drop (p * CARDS_PER_PAGE) cards)).

(** The number of pages the programs report,
    [(len + CARDS_PER_PAGE - 1) // CARDS_PER_PAGE]. *)
Definition pages_needed (n : nat) : nat :=
  (n + CARDS_PER_PAGE - 1) / CARDS_PER_PAGE.

Definition row_major_document {Card : Type} (cards : list Card)
    : list (list (@Placement Card)) :=
  map (page_of cards) (seq 0 (pages_needed (length cards))).

(** [pl] is the [j]-th placement drawn on page [p] of the document. *)
Definition placed_at {Card : Type} (pages : list (list (@Placement Card)))
    (p j : nat) (pl : @Placement Card) : Prop :=
  exists page, pages !! p = Some page /\ page !! j = Some pl.

(** The printing of a request: set code and collector number, when both
    are given and not empty. *)
Definition printing (r : Gui.CardRequest) : option (string * string) :=
  match Gui.req_set_code r, Gui.req_collector_number r with
  | Some (String a sc), Some (String b cn) => Some (String a sc, String b cn)
  | _, _ => None
  end.

(** The answer of the catalog to the exact-printing query of a request,
    [None] when the request has no printing. *)
Definition answer_by_printing (env : Env) (r : Gui.CardRequest)
    : option CardData :=
  match printing r with
  | Some (sc, cn) => env_fetch_card_by_set env sc cn
  | None => None
  end.

(** The catalog queries of the lookup order: the exact printing first
    when there is one, the fuzzy name when that gave nothing. *)
Definition lookup_order (env : Env) (r : Gui.CardRequest) : list Query :=
  match printing r with
  | Some (sc, cn) => [ByPrinting sc cn]
  | None => []
  end
  ++ match answer_by_printing env r with
     | Some _ => []
     | None => [ByFuzzyName (Gui.req_name r)]
     end.

(** A small world to run the pipeline in: a catalog that knows Sol Ring
    by name only, a network that serves every URL, a decoder that reads
    every file as the same two-by-three RGB image. *)
Definition sample_card : CardData :=
  mkCardData (Some "Sol Ring") (Some "mh3") (Some "532")
    (Some (<["large" := "https://img/sol-large.jpg"]> ∅)) None.

Definition sample_image : Image :=
  mkImage "RGB" 2 3 (fun x y => mkPixel (10 * x) (10 * y) 7 255).

Definition sample_env : Env :=
  mkEnv (fun _ _ => None)
        (fun name => if String.eqb name "sol ring" then Some sample_card
                     else None)
        (fun _ => Some "image bytes")
        (fun _ => Some sample_image)
        nearest.

Definition empty_run : RunState := mkRun (mkWorld ∅ []) [] [] [].





(** Case analysis on the eight bits of a character. *)
Ltac case_ascii c :=
  destruct c as [[] [] [] [] [] [] [] []].


From Stdlib Require Import DecimalString DecimalPos.

(** ** The window of the graphical program: class [MTGProxyGUI] *)

Module MTGProxyGUI.

Definition PREVIEW_CARD_WIDTH : Z := 120.

(** [sum(qty for _, qty, *_ in card_entries)] *)
Definition total_cards (card_entries : list Gui.CardRequest) : Z :=
  fold_left (fun acc r => acc + Gui.req_quantity r) card_entries 0.

(** What [add_preview_card] computes for the card it adds: the grid
    cell of its frame and the text of its label. *)
Record PreviewCard : Type := mkPreviewCard {
  pv_row : Z;
  pv_column : Z;
  pv_display_name : string
}.

(** [add_preview_card]: [shown] is the length of [card_photo_refs]
    before the call and [winfo_width] the width the preview canvas
    reports. *)
Definition add_preview_card (shown : nat) (winfo_width : Z)
    (card_name : string) : PreviewCard :=
  let card_photo_refs := S shown in
  let num_cards := Z.of_nat card_photo_refs - 1 in
  let cards_per_row :=
    Z.max 1 ((winfo_width - 20) / (PREVIEW_CARD_WIDTH + 10)) in
  let cards_per_row := if cards_per_row <? 1 then 5 else cards_per_row in
  let row := num_cards / cards_per_row in
  let col := num_cards mod cards_per_row in
  let display_name :=
    if (18 <? String.length card_name)%nat
    then String.substring 0 18 card_name +:+ "..."
    else card_name in
  mkPreviewCard row col display_name.

(** [str(n)] for an integer [n]: its decimal digits, after a minus
    sign when it is negative. *)
Definition str_int (n : Z) : string :=
  NilEmpty.string_of_int (Z.to_int n).

(** The line that [_load_csv_content] writes for one card: the
    printing dialect when set code and collector number are both
    true, the simple format otherwise. *)
Definition render_card (r : Gui.CardRequest) : string :=
  let name := Gui.req_name r in
  let qty := Gui.req_quantity r in
  match Gui.req_set_code r, Gui.req_collector_number r with
  | Some set_code, Some col_num =>
      if truthy (Some set_code) && truthy (Some col_num)
      then str_int qty +:+ " " +:+ name +:+ " ("
           +:+ Text.upper set_code +:+ ") " +:+ col_num
      else str_int qty +:+ "x " +:+ name
  | _, _ => str_int qty +:+ "x " +:+ name
  end.

(** [_load_csv_content], from the parsed cards on: the text put into
    the decklist area; without cards the area keeps its text
    [decklist_text].  [basename] is the name of the file. *)
Definition load_csv_content (cards : list Gui.CardRequest)
    (basename : string) (decklist_text : string) : string :=
  match cards with
  | [] => decklist_text
  | _ =>
      let lines :=
        ("# Imported from " +:+ basename +:+ String "010" "")
        :: map render_card cards in
      String.concat (String "010" "") lines
  end.

(** [self.decklist_text.get(1.0, tk.END)]: the text of the area and
    the newline that the widget keeps at its end. *)
Definition decklist_text_get (decklist_text : string) : string :=
  decklist_text +:+ String "010" "".

End MTGProxyGUI.

(** ** The import of a card list: [parse_moxfield_csv] *)

(** [int(s)] on any string: whitespace around the number is dropped, a
    sign may come first, and the digits may be grouped by single
    underscores.  The limit on the number of digits is not modelled. *)
Fixpoint grouped_digits (after_digit : bool) (s : string) : bool :=
  match s with
  | EmptyString => after_digit
  | String c s' =>
      if Text.isdigit c then grouped_digits true s'
      else if Ascii.eqb c "_" then after_digit && grouped_digits false s'
      else false
  end.

Fixpoint without_underscores (s : string) : string :=
  match s with
  | EmptyString => EmptyString
  | String c s' =>
      if Ascii.eqb c "_" then without_underscores s'
      else String c (without_underscores s')
  end.

(** The whitespace that [int] drops: that of [str.strip] but for the
    four separator controls 28 to 31. *)
Definition int_space (c : ascii) : bool :=
  let n := Text.code c in
  ((9 <=? n) && (n <=? 13) || (n =? 32) || (n =? 133) || (n =? 160))%N.

Definition int_of_str (s : string) : option Z :=
  let t := Text.lstrip_with int_space (Text.rstrip_with int_space s) in
  let '(sign, body) :=
    match t with
    | String "-" r => (-1, r)
    | String "+" r => (1, r)
    | _ => (1, t)
    end in
  if grouped_digits false body
  then Some (sign * Text.int_digits 0 (without_underscores body))
  else None.

(** A row as the CSV reader yields it: the fields by column name; a
    column for which the row is too short holds [None]. *)
Definition Row : Type := gmap string (option string).

(** [row.get(key, default)] *)
Definition row_get (row : Row) (key : string) (default : option string)
    : option string :=
  match row !! key with
  | Some v => v
  | None => default
  end.

(** [x or None] for a string [x] *)
Definition or_none (x : string) : option string :=
  match x with
  | EmptyString => None
  | _ => Some x
  end.

(** The body of the loop of [parse_moxfield_csv] for one row: [Ok None]
    when the row is passed over, by [continue] or by the handler of
    [ValueError] and [KeyError]; an exception of another kind leaves
    the function. *)
Definition parse_row (row : Row) : pyresult (option Gui.CardRequest) :=
  match row_get row "Name" (Some "") with
  | None => Raise "AttributeError"
  | Some name_field =>
      let name := Text.strip name_field in
      if negb (truthy (Some name)) then Ok None
      else
        match row_get row "Count" (row_get row "Quantity" (Some "1")) with
        | None => Raise "TypeError"
        | Some count =>
            match int_of_str count with
            | None => Ok None
            | Some quantity =>
                match row_get row "Edition"
                        (row_get row "Set" (Some "")) with
                | None => Raise "AttributeError"
                | Some edition =>
                    let set_code :=
                      or_none (Text.lower (Text.strip edition)) in
                    let number :=
                      match row_get row "Collector Number"
                              (row_get row "Number" (Some "")) with
                      | Some v => v
                      | None => "None"
                      end in
                    let collector_num := or_none (Text.strip number) in
                    Ok (Some (Gui.mkRequest name quantity set_code
                                collector_num))
                end
            end
        end
  end.

(** [parse_moxfield_csv], from the rows of the reader on. *)
Fixpoint parse_moxfield_csv (rows : list Row)
    : pyresult (list Gui.CardRequest) :=
  match rows with
  | [] => Ok []
  | row :: rest =>
      card <- parse_row row ;;
      cards <- parse_moxfield_csv rest ;;
      Ok (match card with
          | Some c => c :: cards
          | None => cards
          end)
  end.

(** ** Notions used in the further properties *)

(** A character that [sanitize_filename] leaves in a file name: not a
    space, not one of the reserved characters, not an uppercase letter. *)
Definition safe_char (c : ascii) : bool :=
  negb (Ascii.eqb c " ") && negb (reserved_char c)
  && Ascii.eqb (Text.lower_char c) c.

(** A colour channel or an opacity of eight bits. *)
Definition byte_range (v : Z) : Prop := 0 <= v <= 255.

(** The rectangle of a placement lies on the page. *)
Definition on_page {Card : Type} (pl : @Placement Card) : Prop :=
  0 <= pl_x pl /\ pl_x pl + card_width_pts <= page_width
  /\ 0 <= pl_y pl /\ pl_y pl + card_height_pts <= page_height.

(** The rectangles of two placements have no inner point in common. *)
Definition apart {Card : Type} (a b : @Placement Card) : Prop :=
  pl_x a + card_width_pts <= pl_x b \/ pl_x b + card_width_pts <= pl_x a
  \/ pl_y a + card_height_pts <= pl_y b
  \/ pl_y b + card_height_pts <= pl_y a.


(** The character [ch] occurs in [s]. *)
Definition contains_char (ch : ascii) (s : string) : bool :=
  negb (Text.forall_chars (fun c => negb (Ascii.eqb c ch)) s).



(** The optional foil marker of the printing dialect: nothing, or
    whitespace, a star, letters and a star. *)
Definition foil_marker (foil : string) : Prop :=
  foil = ""
  \/ exists w letters,
       foil = w +:+ String "*" (letters +:+ "*")
       /\ w <> "" /\ Text.forall_chars Text.isspace w = true
       /\ letters <> ""
       /\ Text.forall_chars
            (Regex.test true (Regex.CSet [("A", "Z")]%char)) letters = true.


(** A card of an imported list that survives the way through the
    decklist text: a name that is not empty, has no whitespace around it
    and no newline in it, a quantity that is not negative, and either
    no printing and no opening parenthesis in the name, or a set code
    of lowercase letters and digits with a collector number that is not
    empty, holds no whitespace and does not start with a star. *)
Definition importable (r : Gui.CardRequest) : Prop :=
  Gui.req_name r <> ""
  /\ Text.strip (Gui.req_name r) = Gui.req_name r
  /\ contains_char "010" (Gui.req_name r) = false
  /\ 0 <= Gui.req_quantity r
  /\ match Gui.req_set_code r, Gui.req_collector_number r with
     | None, None => contains_char "(" (Gui.req_name r) = false
     | Some sc, Some cn =>
         plain_code sc = true /\ cn <> "" /\ has_space cn = false
         /\ Text.startswith_char "*" cn = false
     | _, _ => False
     end.

(** A row all of whose fields are there: no column is short. *)
Definition complete_row (row : Row) : Prop :=
  forall key, row !! key <> Some None.

(** What [parse_moxfield_csv] promises of a card: a name that is not
    empty and has no whitespace around it; a set code, when there is
    one, that is not empty, in lowercase and without whitespace around
    it; a collector number, when there is one, that is not empty and
    without whitespace around it. *)
Definition imported_card (r : Gui.CardRequest) : Prop :=
  Gui.req_name r <> ""
  /\ Text.strip (Gui.req_name r) = Gui.req_name r
  /\ match Gui.req_set_code r with
     | Some sc => sc <> "" /\ Text.lower sc = sc /\ Text.strip sc = sc
     | None => True
     end
  /\ match Gui.req_collector_number r with
     | Some cn => cn <> "" /\ Text.strip cn = cn
     | None => True
     end.

(** * Properties *)

#[local] Arguments String.append !s1 s2 /.
Local Open Scope list_scope.
#[local] Ltac Zify.zify_post_hook ::= Z.to_euclidean_division_equations.

(** ** The matcher is sound for its declarative reading *)

Lemma append_empty_r (s : string) : s +:+ "" = s.
Proof. induction s as [|c s IH]; simpl; [reflexivity | now rewrite IH]. Qed.

Lemma append_assoc (a b c : string) : (a +:+ b) +:+ c = a +:+ (b +:+ c).
Proof. induction a as [|x a IH]; simpl; [reflexivity | now rewrite IH]. Qed.

Lemma length_append (a b : string) :
  String.length (a +:+ b) = (String.length a + String.length b)%nat.
Proof. induction a as [|x a IH]; simpl; [reflexivity | now rewrite IH]. Qed.

Lemma substring_prefix (w s : string) :
  String.substring 0 (String.length w) (w +:+ s) = w.
Proof. induction w as [|c w IH]; simpl; [now destruct s | now rewrite IH]. Qed.

Lemma consumed_append (w s : string) : Regex.consumed (w +:+ s) s = w.
Proof.
  unfold Regex.consumed. rewrite length_append.
  replace (String.length w + String.length s - String.length s)%nat
    with (String.length w) by lia.
  apply substring_prefix.
Qed.

Section MatcherSound.
Variable ic : bool.
Variable subject : string.
Context {R : Type}.

Lemma star_greedy_sound cl s (k : string -> option R) res :
  Regex.star_greedy ic cl s k = Some res ->
  exists w s', s = w +:+ s'
               /\ Text.forall_chars (Regex.test ic cl) w = true
               /\ k s' = Some res.
Proof.
  revert res. induction s as [|c s IH]; simpl; intros res H.
  - exists "", "". repeat split; assumption.
  - destruct (Regex.test ic cl c) eqn:Hc.
    + destruct (Regex.star_greedy ic cl s k) as [r|] eqn:Hs.
      * destruct (IH r eq_refl) as (w & s' & -> & Hw & Hk).
        exists (String c w), s'. simpl. rewrite Hc, Hw.
        repeat split. congruence.
      * exists "", (String c s). repeat split; assumption.
    + exists "", (String c s). repeat split; assumption.
Qed.

Lemma star_lazy_sound cl s (k : string -> option R) res :
  Regex.star_lazy ic cl s k = Some res ->
  exists w s', s = w +:+ s'
               /\ Text.forall_chars (Regex.test ic cl) w = true
               /\ k s' = Some res.
Proof.
  revert res. induction s as [|c s IH]; simpl; intros res H.
  - destruct (k "") eqn:Hk; [|discriminate].
    exists "", "". repeat split; congruence.
  - destruct (k (String c s)) eqn:Hk.
    + exists "", (String c s). repeat split; congruence.
    + destruct (Regex.test ic cl c) eqn:Hc; [|discriminate].
      destruct (IH res H) as (w & s' & -> & Hw & Hk').
      exists (String c w), s'. simpl. rewrite Hc, Hw.
      repeat split. assumption.
Qed.

Lemma star_sound g cl s (k : string -> option R) res :
  Regex.star ic g cl s k = Some res ->
  exists w s', s = w +:+ s'
               /\ Text.forall_chars (Regex.test ic cl) w = true
               /\ k s' = Some res.
Proof.
  destruct g; [apply star_greedy_sound | apply star_lazy_sound].
Qed.

Lemma plus_sound g cl s (k : string -> option R) res :
  Regex.plus ic g cl s k = Some res ->
  exists w s', s = w +:+ s' /\ w <> ""
               /\ Text.forall_chars (Regex.test ic cl) w = true
               /\ k s' = Some res.
Proof.
  destruct s as [|c s]; simpl; [discriminate|].
  destruct (Regex.test ic cl c) eqn:Hc; [|discriminate].
  intros H. destruct (star_sound _ _ _ _ _ H) as (w & s' & -> & Hw & Hk).
  exists (String c w), s'. simpl. rewrite Hc, Hw.
  repeat split; try assumption. discriminate.
Qed.

Lemma rmatch_sound r :
  forall s cs (k : string -> gmap nat string -> option R) res,
    Regex.rmatch ic subject r s cs k = Some res ->
    exists s' cs', Regex.matches ic subject r s cs s' cs'
                   /\ k s' cs' = Some res.
Proof.
  induction r as [| |cl|g cl|g cl|r IH|r1 IH1 r2 IH2|n r IH];
    simpl; intros s cs k res H.
  - destruct (String.length s =? String.length subject)%nat eqn:E;
      [|discriminate].
    apply Nat.eqb_eq in E. exists s, cs. split; [now constructor | auto].
  - exists s, cs. split.
    + constructor. destruct s as [|c [|c' s]]; auto.
      * destruct (Ascii.eqb_spec c "010"); subst; auto.
        destruct c as [[] [] [] [] [] [] [] []]; try discriminate.
        contradiction.
      * destruct c as [[] [] [] [] [] [] [] []]; discriminate.
    + destruct s as [|c [|c' s]]; auto.
      * destruct c as [[] [] [] [] [] [] [] []]; auto; discriminate.
      * destruct c as [[] [] [] [] [] [] [] []]; discriminate.
  - destruct s as [|c s]; [discriminate|].
    destruct (Regex.test ic cl c) eqn:Hc; [|discriminate].
    exists s, cs. split; [now constructor | auto].
  - destruct (plus_sound _ _ _ _ _ H) as (w & s' & -> & Hne & Hw & Hk).
    exists s', cs. split; [now constructor | auto].
  - destruct (star_sound _ _ _ _ _ H) as (w & s' & -> & Hw & Hk).
    exists s', cs. split; [now constructor | auto].
  - destruct (Regex.rmatch ic subject r s cs k) as [x|] eqn:E.
    + injection H as <-. destruct (IH _ _ _ _ E) as (s' & cs' & Hm & Hk).
      exists s', cs'. split; [now apply Regex.M_OptTake | auto].
    + exists s, cs. split; [apply Regex.M_OptSkip | auto].
  - destruct (IH1 _ _ _ _ H) as (s1 & cs1 & Hm1 & H1).
    destruct (IH2 _ _ _ _ H1) as (s2 & cs2 & Hm2 & H2).
    exists s2, cs2. split; [econstructor; eauto | auto].
  - destruct (IH _ _ _ _ H) as (s' & cs' & Hm & Hk).
    exists s', (<[n := Regex.consumed s s']> cs').
    split; [now constructor | auto].
Qed.
End MatcherSound.

Lemma re_match_sound r s ic m :
  Regex.re_match r s ic = Some m ->
  exists s', Regex.matches ic s r s ∅ s' m.
Proof.
  unfold Regex.re_match. intros H.
  destruct (rmatch_sound ic s r _ _ _ _ H) as (s' & cs' & Hm & Hk).
  injection Hk as ->. eauto.
Qed.

(** ** Characters and digit strings *)

Lemma digit_not_space c : Text.isdigit c = true -> Text.isspace c = false.
Proof. case_ascii c; vm_compute; congruence. Qed.





Lemma py_int_digits d :
  d <> "" -> Text.forall_chars Text.isdigit d = true ->
  Text.py_int d = Some (Text.int_digits 0 d).
Proof.
  intros Hne Hd. unfold Text.py_int. destruct d; [congruence|].
  now rewrite Hd.
Qed.

Lemma leading_digits_append d t :
  Text.forall_chars Text.isdigit d = true ->
  leading_digits t = "" ->
  leading_digits (d +:+ t) = d.
Proof.
  induction d as [|c d IH]; simpl; intros Hd Ht; [exact Ht|].
  apply andb_prop in Hd as [Hc Hd]. rewrite Hc, IH; auto.
Qed.

Lemma has_space_append a b :
  has_space (a +:+ b) = has_space a || has_space b.
Proof.
  induction a as [|c a IH]; simpl; [reflexivity|].
  now rewrite IH, orb_assoc.
Qed.

Lemma all_space_has_space w :
  w <> "" -> Text.forall_chars Text.isspace w = true -> has_space w = true.
Proof.
  destruct w as [|c w]; [congruence|]. simpl. intros _ H.
  apply andb_prop in H as [-> _]. reflexivity.
Qed.

Lemma digits_no_space d :
  Text.forall_chars Text.isdigit d = true -> has_space d = false.
Proof.
  induction d as [|c d IH]; simpl; intros H; [reflexivity|].
  apply andb_prop in H as [Hc Hd]. now rewrite (digit_not_space c Hc), IH.
Qed.

(** ** The shape of a line accepted by the two patterns *)

Section Inversion.
Variable ic : bool.
Variable subject : string.
Local Abbreviation matches := (Regex.matches ic subject).

Lemma inv_cat r1 r2 s cs s2 cs2 :
  matches (Regex.Cat r1 r2) s cs s2 cs2 ->
  exists s1 cs1, matches r1 s cs s1 cs1 /\ matches r2 s1 cs1 s2 cs2.
Proof. inversion 1; subst; eauto. Qed.

Lemma inv_grp n r s cs s' cs2 :
  matches (Regex.Grp n r) s cs s' cs2 ->
  exists cs1, matches r s cs s' cs1
              /\ cs2 = <[n := Regex.consumed s s']> cs1.
Proof. inversion 1; subst; eauto. Qed.

Lemma inv_plus g cl s cs s' cs' :
  matches (Regex.Plus g cl) s cs s' cs' ->
  cs' = cs /\ exists w, s = w +:+ s' /\ w <> ""
                        /\ Text.forall_chars (Regex.test ic cl) w = true.
Proof. inversion 1; subst; eauto. Qed.

Lemma inv_star g cl s cs s' cs' :
  matches (Regex.Star g cl) s cs s' cs' ->
  cs' = cs /\ exists w, s = w +:+ s'
                        /\ Text.forall_chars (Regex.test ic cl) w = true.
Proof. inversion 1; subst; eauto. Qed.

Lemma inv_chr cl s cs s' cs' :
  matches (Regex.Chr cl) s cs s' cs' ->
  cs' = cs /\ exists c, s = String c s' /\ Regex.test ic cl c = true.
Proof. inversion 1; subst; eauto. Qed.

Lemma inv_bol s cs s' cs' :
  matches Regex.Bol s cs s' cs' -> cs' = cs /\ s' = s.
Proof. inversion 1; subst; eauto. Qed.

Lemma inv_eol s cs s' cs' :
  matches Regex.Eol s cs s' cs' -> cs' = cs /\ s' = s.
Proof. inversion 1; subst; eauto. Qed.

Lemma inv_opt r s cs s' cs' :
  matches (Regex.Opt r) s cs s' cs' ->
  (cs' = cs /\ s' = s) \/ matches r s cs s' cs'.
Proof. inversion 1; subst; eauto. Qed.

(** A match only ever consumes a prefix. *)
Lemma matches_suffix r s cs s' cs' :
  matches r s cs s' cs' -> exists w, s = w +:+ s'.
Proof.
  induction 1;
    try (exists ""; reflexivity);
    try (eexists; reflexivity); try assumption.
  - exists (String c ""). reflexivity.
  - destruct IHmatches1 as [w1 ->], IHmatches2 as [w2 ->].
    exists (w1 +:+ w2). now rewrite append_assoc.
Qed.
End Inversion.

Lemma x_not_digit ic c :
  Regex.test ic (Regex.CLit "x") c = true -> Text.isdigit c = false.
Proof. destruct ic; case_ascii c; vm_compute; congruence. Qed.

Lemma x_not_space ic c :
  Regex.test ic (Regex.CLit "x") c = true -> Text.isspace c = false.
Proof. destruct ic; case_ascii c; vm_compute; congruence. Qed.

Lemma space_not_digit c : Text.isspace c = true -> Text.isdigit c = false.
Proof. case_ascii c; vm_compute; congruence. Qed.

Lemma spaces_lead_no_digit w u :
  w <> "" -> Text.forall_chars Text.isspace w = true ->
  leading_digits (w +:+ u) = "".
Proof.
  destruct w as [|c w]; [congruence|]. simpl. intros _ H.
  apply andb_prop in H as [Hc _]. now rewrite (space_not_digit c Hc).
Qed.

(** Both patterns start alike: a count, an optional x, whitespace. *)
Lemma count_head ic subject rest s cs s' cs' :
  Regex.matches ic subject
    (Regex.Bol
     ~> Regex.Grp 1 (Regex.Plus true Regex.CDigit)
     ~> Regex.Opt (Regex.Chr (Regex.CLit "x"))
     ~> Regex.Plus true Regex.CSpace
     ~> rest)%re s cs s' cs' ->
  exists d t u,
    s = d +:+ t /\ d <> ""
    /\ Text.forall_chars Text.isdigit d = true
    /\ leading_digits t = "" /\ has_space t = true
    /\ Regex.matches ic subject rest u (<[1%nat := d]> cs) s' cs'.
Proof.
  intros H.
  apply inv_cat in H as (s0 & cs0 & Hbol & H).
  apply inv_bol in Hbol as [-> ->].
  apply inv_cat in H as (s1 & cs1 & Hg & H).
  apply inv_grp in Hg as (cs1' & Hd & ->).
  apply inv_plus in Hd as (-> & d & -> & Hne & Hd).
  rewrite consumed_append in H.
  apply inv_cat in H as (s2 & cs2 & Hx & H).
  apply inv_cat in H as (u & cs3 & Hs & H).
  apply inv_plus in Hs as (-> & w & -> & Hw & Hsp).
  change (Regex.test ic Regex.CSpace) with Text.isspace in Hsp.
  change (Regex.test ic Regex.CDigit) with Text.isdigit in Hd.
  apply inv_opt in Hx as [[-> <-] | Hx].
  - exists d, (w +:+ u), u. repeat split; auto.
    + now apply spaces_lead_no_digit.
    + rewrite has_space_append, all_space_has_space; auto.
  - apply inv_chr in Hx as (-> & c & -> & Hc).
    exists d, (String c (w +:+ u)), u. repeat split; auto.
    + simpl. now rewrite (x_not_digit _ _ Hc).
    + simpl. rewrite has_space_append, all_space_has_space; auto.
      apply orb_true_r.
Qed.


(** A line accepted by the simple pattern: group 1 is the run of digits
    at its head, whitespace follows, group 2 is set. *)
Lemma simple_match_shape e m :
  Regex.re_match simple_pattern e true = Some m ->
  exists d t,
    e = d +:+ t /\ d <> "" /\ Text.forall_chars Text.isdigit d = true
    /\ leading_digits t = "" /\ has_space t = true
    /\ Regex.group m 1 = Some d /\ is_Some (Regex.group m 2).
Proof.
  intros H. apply re_match_sound in H as [s' H].
  unfold simple_pattern in H.
  apply count_head in H as (d & t & u & -> & Hne & Hd & Hlead & Hsp & H).
  exists d, t. repeat split; auto; unfold Regex.group;
    (repeat match goal with
     | H : Regex.matches _ _ (Regex.Cat _ _) _ _ _ _ |- _ =>
         apply inv_cat in H as (? & ? & ? & ?)
     | H : Regex.matches _ _ (Regex.Grp _ _) _ _ _ _ |- _ =>
         apply inv_grp in H as (? & ? & ?)
     | H : Regex.matches _ _ (Regex.Plus _ _) _ _ _ _ |- _ =>
         apply inv_plus in H as (? & _)
     | H : Regex.matches _ _ (Regex.Star _ _) _ _ _ _ |- _ =>
         apply inv_star in H as (? & _)
     | H : Regex.matches _ _ (Regex.Chr _) _ _ _ _ |- _ =>
         apply inv_chr in H as (? & _)
     | H : Regex.matches _ _ Regex.Eol _ _ _ _ |- _ =>
         apply inv_eol in H as (? & _)
     | H : Regex.matches _ _ (Regex.Opt _) _ _ _ _ |- _ =>
         apply inv_opt in H as [(? & _) | ?]
     end; subst);
    simplify_map_eq; eauto.
Qed.

(** The same for the printing-qualified pattern, with its four
    groups. *)
Lemma moxfield_match_shape e m :
  Regex.re_match moxfield_pattern e true = Some m ->
  exists d t,
    e = d +:+ t /\ d <> "" /\ Text.forall_chars Text.isdigit d = true
    /\ leading_digits t = "" /\ has_space t = true
    /\ Regex.group m 1 = Some d /\ is_Some (Regex.group m 2)
    /\ is_Some (Regex.group m 3) /\ is_Some (Regex.group m 4).
Proof.
  intros H. apply re_match_sound in H as [s' H].
  unfold moxfield_pattern in H.
  apply count_head in H as (d & t & u & -> & Hne & Hd & Hlead & Hsp & H).
  exists d, t. repeat split; auto; unfold Regex.group;
    (repeat match goal with
     | H : Regex.matches _ _ (Regex.Cat _ _) _ _ _ _ |- _ =>
         apply inv_cat in H as (? & ? & ? & ?)
     | H : Regex.matches _ _ (Regex.Grp _ _) _ _ _ _ |- _ =>
         apply inv_grp in H as (? & ? & ?)
     | H : Regex.matches _ _ (Regex.Plus _ _) _ _ _ _ |- _ =>
         apply inv_plus in H as (? & _)
     | H : Regex.matches _ _ (Regex.Star _ _) _ _ _ _ |- _ =>
         apply inv_star in H as (? & _)
     | H : Regex.matches _ _ (Regex.Chr _) _ _ _ _ |- _ =>
         apply inv_chr in H as (? & _)
     | H : Regex.matches _ _ Regex.Eol _ _ _ _ |- _ =>
         apply inv_eol in H as (? & _)
     | H : Regex.matches _ _ (Regex.Opt _) _ _ _ _ |- _ =>
         apply inv_opt in H as [(? & _) | ?]
     end; subst);
    simplify_map_eq; eauto.
Qed.

(** ** Decklist parser *)

Lemma digit_not_hash c :
  Text.isdigit c = true -> Ascii.eqb c "#" = false.
Proof. case_ascii c; vm_compute; congruence. Qed.

Lemma digit_not_colon c :
  Text.isdigit c = true -> Ascii.eqb c ":" = false.
Proof. case_ascii c; vm_compute; congruence. Qed.

Lemma digit_lower c : Text.isdigit c = true -> Text.lower_char c = c.
Proof. case_ascii c; vm_compute; congruence. Qed.

Lemma rstrip_with_keeps_head p c s :
  p c = false -> exists r, Text.rstrip_with p (String c s) = String c r.
Proof.
  intros Hc. simpl. destruct (Text.rstrip_with p s).
  - rewrite Hc. eauto.
  - eauto.
Qed.

Lemma digit_head_not_section c r :
  Text.isdigit c = true -> String c r ∉ Gui.MOXFIELD_SECTIONS.
Proof.
  intros Hc Hin. unfold Gui.MOXFIELD_SECTIONS in Hin.
  repeat (apply elem_of_union in Hin as [Hin|Hin]);
    apply elem_of_singleton in Hin; injection Hin as -> _;
    discriminate Hc.
Qed.

(** A token made of a count and at most an x holds no whitespace, so
    neither pattern accepts it. *)
Lemma token_no_space d sfx :
  Text.forall_chars Text.isdigit d = true ->
  sfx = "" \/ sfx = "x" \/ sfx = "X" ->
  has_space (d +:+ sfx) = false.
Proof.
  intros Hd Hs. rewrite has_space_append, (digits_no_space d Hd).
  destruct Hs as [-> | [-> | ->]]; reflexivity.
Qed.

Lemma no_space_no_simple_match e :
  has_space e = false -> Regex.re_match simple_pattern e true = None.
Proof.
  intros He. destruct (Regex.re_match simple_pattern e true) eqn:E; auto.
  apply simple_match_shape in E as (d & t & -> & _ & _ & _ & Ht & _).
  rewrite has_space_append, Ht, orb_true_r in He. discriminate.
Qed.

Lemma no_space_no_moxfield_match e :
  has_space e = false -> Regex.re_match moxfield_pattern e true = None.
Proof.
  intros He. destruct (Regex.re_match moxfield_pattern e true) eqn:E; auto.
  apply moxfield_match_shape in E as (d & t & -> & _ & _ & _ & Ht & _).
  rewrite has_space_append, Ht, orb_true_r in He. discriminate.
Qed.

(** C4. The five lines of the scenario parse to exactly two requests,
    Lightning Bolt four times without printing and Sol Ring once in
    printing mh3 532; the comment, the blank line and the section header
    are skipped, and so is every line that is a section label in any
    letter case, with or without trailing colons. *)
Theorem parse_five_lines_scenario :
  Gui.parse_lines five_lines
  = Ok [Gui.mkRequest "Lightning Bolt" 4 None None;
        Gui.mkRequest "Sol Ring" 1 (Some "mh3") (Some "532")]
  /\ Gui.parse_decklist five_lines_text = Gui.parse_lines five_lines
  /\ map Gui.parse_card_entry
       ["# comment"; ""; "Sideboard"; "Sideboard:"; "SIDEBOARD";
        "sideboard:"]
     = repeat (Ok (None, 0, None, None)) 6
  /\ (forall line,
        Text.rstrip_char ":" (Text.lower (Text.strip line))
          ∈ Gui.MOXFIELD_SECTIONS ->
        Gui.parse_card_entry line = Ok (None, 0, None, None)).
Proof.
  split; [vm_compute; reflexivity|].
  split; [vm_compute; reflexivity|].
  split; [vm_compute; reflexivity|].
  intros line Hin. unfold Gui.parse_card_entry.
  destruct (_ || _); [reflexivity|].
  now rewrite (bool_decide_eq_true_2 _ Hin).
Qed.

(** C10. A line that is only a count, with or without its x, is taken
    whole as the card name, with quantity 1 and no printing, by both
    parsers. *)
Theorem bare_count_token_is_a_name (line d sfx : string) :
  Text.strip line = d +:+ sfx ->
  d <> "" ->
  Text.forall_chars Text.isdigit d = true ->
  sfx = "" \/ sfx = "x" \/ sfx = "X" ->
  Gui.parse_card_entry line = Ok (Some (d +:+ sfx), 1, None, None)
  /\ Cli.parse_card_entry line = Ok (Some (d +:+ sfx), 1).
Proof.
  intros Hstrip Hne Hd Hs.
  pose proof (token_no_space d sfx Hd Hs) as Hns.
  unfold Gui.parse_card_entry, Cli.parse_card_entry. rewrite Hstrip.
  rewrite (no_space_no_simple_match _ Hns),
    (no_space_no_moxfield_match _ Hns).
  destruct d as [|c d]; [congruence|]. simpl in Hd.
  apply andb_prop in Hd as [Hc Hd]. simpl.
  rewrite (digit_not_hash c Hc).
  destruct (rstrip_with_keeps_head (fun a => Ascii.eqb a ":") c
              (Text.map_chars Text.lower_char (d +:+ sfx))
              (digit_not_colon c Hc)) as [r Hr].
  unfold Text.rstrip_char, Text.lower. simpl Text.map_chars.
  rewrite (digit_lower c Hc), Hr.
  rewrite (bool_decide_eq_false_2 _ (digit_head_not_section c r Hc)).
  split; reflexivity.
Qed.

Lemma bare_count_token_witness :
  Gui.parse_card_entry "13x" = Ok (Some "13x", 1, None, None)
  /\ Cli.parse_card_entry "13x" = Ok (Some "13x", 1).
Proof.
  apply (bare_count_token_is_a_name "13x" "13" "x");
    [reflexivity | discriminate | reflexivity | auto].
Defined.


Lemma group_int_count m d :
  Regex.group m 1 = Some d -> d <> "" ->
  Text.forall_chars Text.isdigit d = true ->
  group_int m 1 = Ok (Text.int_digits 0 d).
Proof.
  intros Hg Hne Hd. unfold group_int.
  now rewrite Hg, (py_int_digits d Hne Hd).
Qed.




(** ** Catalog: the artwork reference *)

Lemma first_available_chosen keys uris :
  chosen_from keys uris (first_available keys uris).
Proof.
  induction keys as [|key rest IH]; simpl.
  - apply chosen_none. intros k [].
  - destruct (uris !! key) as [url|] eqn:Hk.
    + apply (chosen_first _ _ [] key rest url); auto. intros k [].
    + inversion IH as [higher k' lower url Hkeys Hurl Hhigher Heq | Hall Heq].
      * apply (chosen_first _ _ (key :: higher) k' lower url); auto.
        -- simpl. now rewrite Hkeys.
        -- intros k [<- | Hin]; auto.
      * apply chosen_none. intros k [<- | Hin]; auto.
Qed.

Lemma first_available_empty keys : first_available keys ∅ = None.
Proof. induction keys; simpl; [reflexivity | now rewrite lookup_empty]. Qed.

Lemma image_url_for_precedence keys card_data :
  artwork_by_precedence keys card_data (image_url_for keys card_data).
Proof.
  unfold artwork_by_precedence, image_url_for, top_renditions,
    first_face_renditions.
  exists (first_available keys (default ∅ (cd_image_uris card_data))).
  split; [apply first_available_chosen|].
  destruct (cd_image_uris card_data) as [uris|]; simpl.
  - destruct (first_available keys uris) as [url|]; [reflexivity|].
    destruct (cd_card_faces card_data) as [[|face faces]|];
      try (rewrite <- (first_available_empty keys);
           apply first_available_chosen).
    destruct (face_image_uris face) as [furis|]; simpl.
    + apply first_available_chosen.
    + rewrite <- (first_available_empty keys). apply first_available_chosen.
  - rewrite first_available_empty.
    destruct (cd_card_faces card_data) as [[|face faces]|];
      try (rewrite <- (first_available_empty keys);
           apply first_available_chosen).
    destruct (face_image_uris face) as [furis|]; simpl.
    + apply first_available_chosen.
    + rewrite <- (first_available_empty keys). apply first_available_chosen.
Qed.

Lemma first_available_repeated key rest uris :
  first_available (key :: key :: rest) uris
  = first_available (key :: rest) uris.
Proof. simpl. now destruct (uris !! key). Qed.

(** The claim of C3 fails in the graphical program: offered a png and a
    large rendition, it takes the large one, where the precedence png,
    large, normal takes the png. *)
Lemma gui_takes_large_before_png :
  top_renditions card_with_png_and_large !! "png"
  = Some "https://img/sol.png"
  /\ Gui.get_image_url card_with_png_and_large "large"
     = Some "https://img/sol-large.jpg"
  /\ ~ artwork_by_precedence ["png"; "large"; "normal"]
         card_with_png_and_large
         (Gui.get_image_url card_with_png_and_large "large").
Proof.
  split; [reflexivity|]. split; [reflexivity|].
  intros (top & Htop & Hres).
  inversion Htop as [higher key lower url Hkeys Hurl Hhigher Heq | Hall Heq];
    subst top.
  - destruct higher as [|k0 higher].
    + injection Hkeys as <- <-. vm_compute in Hurl, Hres. congruence.
    + injection Hkeys as <- _.
      specialize (Hhigher "png" (or_introl eq_refl)). discriminate Hhigher.
  - specialize (Hall "png" (or_introl eq_refl)). discriminate Hall.
Qed.

(** C3, amended. The command-line program chooses the artwork by the
    precedence png, large, normal; the graphical program, which asks for
    the large size, by the precedence large, normal, small; each applies
    its precedence alike to the renditions of the record and, when none
    of them is available, to those of the first face, and the faces
    after the first never count. *)
Theorem artwork_choice_precedence :
  (forall card_data,
     artwork_by_precedence ["png"; "large"; "normal"] card_data
       (Cli.get_image_url card_data)
     /\ artwork_by_precedence ["large"; "normal"; "small"] card_data
          (Gui.get_image_url card_data "large"))
  /\ (forall name set_code number uris face faces faces',
        let one := mkCardData name set_code number uris
                     (Some (face :: faces)) in
        let other := mkCardData name set_code number uris
                       (Some (face :: faces')) in
        Cli.get_image_url other = Cli.get_image_url one
        /\ Gui.get_image_url other "large" = Gui.get_image_url one "large").
Proof.
  split.
  - intros card_data. split; [apply image_url_for_precedence|].
    unfold Gui.get_image_url.
    replace (image_url_for ["large"; "large"; "normal"; "small"] card_data)
      with (image_url_for ["large"; "normal"; "small"] card_data).
    + apply image_url_for_precedence.
    + unfold image_url_for.
      destruct (cd_image_uris card_data) as [uris|];
        destruct (cd_card_faces card_data) as [[|face faces]|];
        try destruct (face_image_uris face);
        rewrite ?first_available_repeated; reflexivity.
  - intros name set_code number uris face faces faces'. split; reflexivity.
Qed.

(** ** Cache store: keys *)

Lemma sanitize_filename_map name :
  sanitize_filename name = Text.map_chars sanitize_char name.
Proof.
  unfold sanitize_filename, Text.replace_char, Text.lower.
  induction name as [|c name IH]; simpl; [reflexivity|].
  now rewrite IH.
Qed.

Lemma map_chars_append f a b :
  Text.map_chars f (a +:+ b) = Text.map_chars f a +:+ Text.map_chars f b.
Proof. induction a as [|c a IH]; simpl; [reflexivity | now rewrite IH]. Qed.

Lemma sanitize_append a b :
  sanitize_filename (a +:+ b) = sanitize_filename a +:+ sanitize_filename b.
Proof. rewrite !sanitize_filename_map. apply map_chars_append. Qed.

Lemma lower_alnum_sanitize c : lower_alnum c = true -> sanitize_char c = c.
Proof. case_ascii c; vm_compute; congruence. Qed.

Lemma lower_alnum_not_underscore c :
  lower_alnum c = true -> Ascii.eqb c "_" = false.
Proof. case_ascii c; vm_compute; congruence. Qed.

Lemma plain_sanitize s :
  Text.forall_chars lower_alnum s = true -> sanitize_filename s = s.
Proof.
  rewrite sanitize_filename_map.
  induction s as [|c s IH]; simpl; intros H; [reflexivity|].
  apply andb_prop in H as [Hc Hs]. now rewrite (lower_alnum_sanitize c Hc), IH.
Qed.

Lemma plain_no_underscore s :
  Text.forall_chars lower_alnum s = true -> no_underscore s = true.
Proof.
  unfold no_underscore. induction s as [|c s IH]; simpl; intros H;
    [reflexivity|].
  apply andb_prop in H as [Hc Hs].
  now rewrite (lower_alnum_not_underscore c Hc), IH.
Qed.

Lemma no_underscore_append a b :
  no_underscore (a +:+ b) = no_underscore a && no_underscore b.
Proof.
  unfold no_underscore. induction a as [|c a IH]; simpl; [reflexivity|].
  now rewrite IH, andb_assoc.
Qed.

(** The text after the last underscore determines the split. *)
Lemma split_at_last_underscore a1 b1 a2 b2 :
  no_underscore b1 = true -> no_underscore b2 = true ->
  a1 +:+ "_" +:+ b1 = a2 +:+ "_" +:+ b2 ->
  a1 = a2 /\ b1 = b2.
Proof.
  intros Hb1 Hb2. revert a2.
  induction a1 as [|x a1 IH]; intros [|y a2]; simpl; intros H.
  - injection H as ->. auto.
  - injection H as <- ->. rewrite no_underscore_append in Hb1.
    simpl in Hb1. rewrite andb_false_r in Hb1. discriminate.
  - injection H as -> <-. rewrite no_underscore_append in Hb2.
    simpl in Hb2. rewrite andb_false_r in Hb2. discriminate.
  - injection H as -> H. destruct (IH _ H) as [-> ->]. auto.
Qed.

Lemma append_cancel_r a b t : a +:+ t = b +:+ t -> a = b.
Proof.
  revert b. induction a as [|x a IH]; intros [|y b]; simpl; intros H.
  - reflexivity.
  - apply (f_equal String.length) in H. simpl in H.
    rewrite length_append in H. lia.
  - apply (f_equal String.length) in H. simpl in H.
    rewrite length_append in H. lia.
  - injection H as -> H. now rewrite (IH _ H).
Qed.

Lemma plain_code_spec s :
  plain_code s = true ->
  s <> "" /\ Text.forall_chars lower_alnum s = true.
Proof.
  unfold plain_code. intros H. apply andb_prop in H as [Hne Hs].
  split; [|exact Hs]. intros ->. discriminate Hne.
Qed.

Lemma cache_path_with_printing name sc cn :
  plain_code sc = true -> plain_code cn = true ->
  Gui.cache_path name (Some sc) (Some cn)
  = (sanitize_filename name +:+ "_" +:+ sc) +:+ "_" +:+ (cn +:+ ".png").
Proof.
  intros Hsc Hcn.
  apply plain_code_spec in Hsc as [Hsc0 Hsc], Hcn as [Hcn0 Hcn].
  unfold Gui.cache_path, truthy.
  destruct sc as [|? sc']; [congruence|].
  destruct cn as [|? cn']; [congruence|].
  cbv [andb].
  rewrite !sanitize_append, (plain_sanitize _ Hsc), (plain_sanitize _ Hcn).
  change (sanitize_filename "_") with "_".
  now rewrite !append_assoc.
Qed.

Lemma cache_path_without_printing name :
  Gui.cache_path name None None = sanitize_filename name +:+ ".png".
Proof. reflexivity. Qed.

(** The claim of C8 fails: distinct names, and distinct triples with the
    printing known, can have one key. *)
Lemma distinct_cards_can_share_a_key :
  Gui.cache_path "Fire: Ice" None None = Gui.cache_path "fire/_ice" None None
  /\ Gui.cache_path "Bolt_A" (Some "b") (Some "1")
     = Gui.cache_path "Bolt" (Some "a_b") (Some "1")
  /\ ~ (forall n1 s1 c1 n2 s2 c2 : string,
          (n1, s1, c1) <> (n2, s2, c2) ->
          Gui.cache_path n1 (Some s1) (Some c1)
          <> Gui.cache_path n2 (Some s2) (Some c2))
  /\ ~ (forall n1 n2 : string,
          n1 <> n2 ->
          Gui.cache_path n1 None None <> Gui.cache_path n2 None None).
Proof.
  split; [reflexivity|]. split; [reflexivity|]. split.
  - intros H. apply (H "Bolt_A" "b" "1" "Bolt" "a_b" "1");
      [discriminate | reflexivity].
  - intros H. apply (H "Fire: Ice" "fire/_ice");
      [discriminate | reflexivity].
Qed.

(** C8, amended. The key is a function of the name and the printing;
    two names without printing have the same key exactly when their
    sanitised forms are the same, so requests for one name share one key;
    and with set codes and collector numbers written in lowercase
    letters and digits, two triples have the same key exactly when the
    sanitised names, the set codes and the collector numbers are the
    same, so two printings of one card never share a key. *)
Theorem cache_key_collisions (n1 n2 s1 c1 s2 c2 : string) :
  plain_code s1 = true -> plain_code c1 = true ->
  plain_code s2 = true -> plain_code c2 = true ->
  (Gui.cache_path n1 None None = Gui.cache_path n2 None None
   <-> sanitize_filename n1 = sanitize_filename n2)
  /\ (Gui.cache_path n1 (Some s1) (Some c1)
      = Gui.cache_path n2 (Some s2) (Some c2)
      <-> sanitize_filename n1 = sanitize_filename n2
          /\ s1 = s2 /\ c1 = c2).
Proof.
  intros Hs1 Hc1 Hs2 Hc2. split.
  - rewrite !cache_path_without_printing. split.
    + apply append_cancel_r.
    + now intros ->.
  - rewrite !cache_path_with_printing by assumption.
    apply plain_code_spec in Hs1 as [_ Hs1], Hc1 as [_ Hc1],
      Hs2 as [_ Hs2], Hc2 as [_ Hc2].
    split.
    + intros H. apply split_at_last_underscore in H as [H Hc].
      * apply split_at_last_underscore in H as [Hn Hs];
          [|now apply plain_no_underscore..].
        apply append_cancel_r in Hc. auto.
      * rewrite no_underscore_append, (plain_no_underscore _ Hc1).
        reflexivity.
      * rewrite no_underscore_append, (plain_no_underscore _ Hc2).
        reflexivity.
    + now intros (-> & -> & ->).
Qed.

Lemma cache_key_collisions_witness :
  plain_code "mh3" = true /\ plain_code "532" = true
  /\ plain_code "sld" = true /\ plain_code "1011" = true
  /\ (Gui.cache_path "Sol Ring" None None = Gui.cache_path "sol ring" None None
      <-> sanitize_filename "Sol Ring" = sanitize_filename "sol ring")
  /\ (Gui.cache_path "Sol Ring" (Some "mh3") (Some "532")
      = Gui.cache_path "sol ring" (Some "sld") (Some "1011")
      <-> sanitize_filename "Sol Ring" = sanitize_filename "sol ring"
          /\ "mh3" = "sld" /\ "532" = "1011").
Proof.
  repeat (split; [reflexivity|]).
  apply (cache_key_collisions "Sol Ring" "sol ring" "mh3" "532" "sld" "1011");
    reflexivity.
Defined.

(** ** Cache store: lookup and fetch *)








(** ** Image normalizer *)

(** *** Rounding to binary64 *)















(** *** The normalizer *)








(** What the mode handling does to the pixels: modes RGBA and P are
    composited over white, every other mode but RGB has its opacity
    discarded. *)
Lemma to_rgb_pixels img x y :
  pixel (to_rgb img) x y
  = if String.eqb (mode img) "RGBA" || String.eqb (mode img) "P"
    then composited_on_white (pixel img x y)
    else if String.eqb (mode img) "RGB" then pixel img x y
         else alpha_dropped (pixel img x y).
Proof.
  unfold to_rgb.
  destruct (String.eqb (mode img) "RGBA") eqn:Ea;
    destruct (String.eqb (mode img) "P") eqn:Ep; simpl;
    try reflexivity.
  - now rewrite Ea.
  - now destruct (String.eqb (mode img) "RGB").
Qed.




(** The density of the graphical program gives cards of 750 by 1050
    pixels. *)
Lemma target_size_at_default_dpi :
  (target_width DEFAULT_DPI, target_height DEFAULT_DPI) = (750, 1050).
Proof. vm_compute. reflexivity. Qed.


(** ** Sheet layout *)

Section LayoutFacts.
Context {Card : Type}.
Variable cards : list Card.

Lemma canvas_eta (c : @Canvas Card) :
  mkCanvas (closed_pages c) (open_page c) = c.
Proof. now destruct c. Qed.

(** The inner loop draws the next cards, as many as there are columns
    left and cards left. *)
Lemma for_col_draws n : forall c0 row i (c : @Canvas Card),
  for_col cards (seq c0 n) row (i, c)
  = Ok ((i + length (take n (drop i cards)))%nat,
        mkCanvas (closed_pages c)
          (open_page c
           ++ imap (fun j card => cell (i + j) row (c0 + j) card)
                (take n (drop i cards)))).
Proof.
  induction n as [|n IH]; intros c0 row i c.
  - simpl. rewrite Nat.add_0_r, app_nil_r, canvas_eta. reflexivity.
  - cbn [seq for_col fst]. unfold total_cards.
    destruct (length cards <=? i)%nat eqn:E.
    + apply Nat.leb_le in E. rewrite (drop_ge _ _ E). simpl.
      rewrite Nat.add_0_r, app_nil_r, canvas_eta. reflexivity.
    + apply Nat.leb_gt in E.
      destruct (lookup_lt_is_Some_2 cards i E) as [card Hcard].
      unfold place_card. rewrite Hcard. cbn [bind].
      rewrite IH. rewrite (drop_S _ _ _ Hcard).
      cbn [take length imap drawImage closed_pages open_page].
      rewrite <- app_assoc. cbn [app].
      f_equal. f_equal; [lia|]. f_equal. f_equal.
      rewrite !Nat.add_0_r. f_equal.
      apply imap_ext. intros j x _. unfold cell. cbn.
      f_equal; lia.
Qed.

Lemma drop_past_end i k :
  (length (take k (drop i cards)) < k)%nat ->
  drop (i + length (take k (drop i cards))) cards = [].
Proof.
  intros H. apply drop_ge. rewrite length_take, length_drop in *. lia.
Qed.

(** The outer loop fills the rows one after the other. *)
Lemma for_row_draws nr : forall r0 i (c : @Canvas Card),
  for_row cards (seq r0 nr) (i, c)
  = Ok ((i + length (take (nr * CARDS_PER_ROW) (drop i cards)))%nat,
        mkCanvas (closed_pages c)
          (open_page c
           ++ imap (fun j card =>
                      cell (i + j) (r0 + j / CARDS_PER_ROW)
                        (j mod CARDS_PER_ROW) card)
                (take (nr * CARDS_PER_ROW) (drop i cards)))).
Proof.
  induction nr as [|nr IH]; intros r0 i c.
  - simpl. rewrite Nat.add_0_r, app_nil_r, canvas_eta. reflexivity.
  - cbn [seq for_row]. rewrite for_col_draws. cbn [bind].
    rewrite IH. cbn [closed_pages open_page].
    set (row := take CARDS_PER_ROW (drop i cards)).
    assert (take (nr * CARDS_PER_ROW) (drop (i + length row) cards)
            = take (nr * CARDS_PER_ROW) (drop CARDS_PER_ROW (drop i cards)))
      as Hrest.
    { destruct (Nat.lt_ge_cases (length row) CARDS_PER_ROW) as [Hlt|Hge].
      - unfold row in *. rewrite (drop_past_end i CARDS_PER_ROW Hlt).
        rewrite drop_drop, drop_ge; [reflexivity|].
        rewrite length_take, length_drop in Hlt. lia.
      - assert (length row = CARDS_PER_ROW) as ->.
        { unfold row in *. rewrite length_take in *. lia. }
        now rewrite drop_drop. }
    rewrite Hrest.
    assert (take (S nr * CARDS_PER_ROW) (drop i cards)
            = row ++ take (nr * CARDS_PER_ROW)
                       (drop CARDS_PER_ROW (drop i cards))) as ->.
    { unfold row. cbn [Nat.mul]. now rewrite take_take_drop. }
    set (rest := take (nr * CARDS_PER_ROW)
                   (drop CARDS_PER_ROW (drop i cards))).
    rewrite length_app, imap_app, <- app_assoc.
    f_equal. f_equal; [lia|]. f_equal. f_equal. f_equal.
    + apply imap_ext. intros j x Hj.
      apply lookup_lt_Some in Hj.
      assert (j < CARDS_PER_ROW)%nat.
      { unfold row in Hj. rewrite length_take in Hj. lia. }
      rewrite Nat.div_small, Nat.mod_small by assumption.
      unfold cell. f_equal; lia.
    + destruct rest as [|x rest'] eqn:Erest; [reflexivity|].
      assert (length row = CARDS_PER_ROW) as Hfull.
      { destruct (Nat.lt_ge_cases (length row) CARDS_PER_ROW)
          as [Hlt|Hge].
        - exfalso. unfold rest, row in *.
          rewrite length_take, length_drop in Hlt.
          rewrite drop_drop, drop_ge in Erest by lia.
          now rewrite take_nil in Erest.
        - unfold row in *. rewrite length_take in *. lia. }
      apply imap_ext. intros j y _. rewrite Hfull.
      change CARDS_PER_ROW with 3%nat.
      replace (3 + j)%nat with (j + 1 * 3)%nat by lia.
      rewrite Nat.div_add, Nat.Div0.mod_add by lia.
      unfold cell. f_equal; lia.
Qed.
End LayoutFacts.

Section DocumentFacts.
Context {Card : Type}.
Variable cards : list Card.

Lemma page_body p closed :
  for_row cards (seq 0 CARDS_PER_COL)
    ((p * CARDS_PER_PAGE)%nat, mkCanvas closed [])
  = Ok ((p * CARDS_PER_PAGE
         + length (take CARDS_PER_PAGE
                     (drop (p * CARDS_PER_PAGE) cards)))%nat,
        mkCanvas closed (page_of cards p)).
Proof. rewrite for_row_draws. reflexivity. Qed.

Lemma length_page_of p :
  length (page_of cards p)
  = Nat.min CARDS_PER_PAGE (length cards - p * CARDS_PER_PAGE).
Proof.
  unfold page_of. now rewrite length_imap, length_take, length_drop.
Qed.

Lemma while_cards_done fuel (st : @loop_state Card) :
  (length cards <= fst st)%nat ->
  while_cards cards fuel st = Some (Ok st).
Proof.
  intros H. apply Nat.ltb_ge in H.
  destruct fuel; simpl; unfold total_cards; now rewrite H.
Qed.

(** From the head of page [p] on, the loop closes every page but the
    last and leaves the last one open. *)
Lemma while_cards_pages fuel : forall p closed,
  (p * CARDS_PER_PAGE < length cards)%nat ->
  (length cards <= p * CARDS_PER_PAGE + fuel)%nat ->
  while_cards cards fuel ((p * CARDS_PER_PAGE)%nat, mkCanvas closed [])
  = Some (Ok (length cards,
              mkCanvas
                (closed
                 ++ map (page_of cards)
                      (seq p (pages_needed (length cards) - 1 - p)))
                (page_of cards (pages_needed (length cards) - 1)))).
Proof.
  induction fuel as [|fuel IH]; intros p closed Hlt Hfuel; [lia|].
  cbn [while_cards fst]. unfold total_cards at 1.
  rewrite (proj2 (Nat.ltb_lt _ _) Hlt), page_body.
  set (len := length (take CARDS_PER_PAGE
                        (drop (p * CARDS_PER_PAGE) cards))).
  assert (len = Nat.min CARDS_PER_PAGE
                  (length cards - p * CARDS_PER_PAGE)) as Hlen.
  { unfold len. now rewrite length_take, length_drop. }
  cbn [fst snd]. unfold total_cards.
  unfold pages_needed in *. change CARDS_PER_PAGE with 9%nat in *.
  destruct (p * 9 + len <? length cards)%nat eqn:E.
  - apply Nat.ltb_lt in E.
    assert (len = 9%nat) as -> by lia.
    replace (p * 9 + 9)%nat with (S p * 9)%nat by lia.
    unfold showPage. cbn [closed_pages open_page].
    rewrite IH by lia. rewrite <- app_assoc. cbn [app].
    replace ((length cards + 9 - 1) / 9 - 1 - p)%nat
      with (S ((length cards + 9 - 1) / 9 - 1 - S p)) by lia.
    reflexivity.
  - apply Nat.ltb_ge in E.
    rewrite while_cards_done by (cbn [fst]; lia).
    assert (p * 9 + len = length cards)%nat as -> by lia.
    replace ((length cards + 9 - 1) / 9 - 1)%nat with p by lia.
    rewrite Nat.sub_diag. cbn [seq map]. now rewrite app_nil_r.
Qed.

(** The document written is the row-major one. *)
Lemma create_pdf_document :
  create_pdf cards = Some (Ok (row_major_document cards)).
Proof.
  unfold create_pdf, row_major_document.
  destruct (Nat.eq_dec (length cards) 0%nat) as [Hz|Hnz].
  - rewrite while_cards_done by (cbn [fst]; unfold total_cards; lia).
    rewrite Hz. reflexivity.
  - unfold total_cards.
    change (0%nat, @new_canvas Card)
      with ((0 * CARDS_PER_PAGE)%nat, @mkCanvas Card [] []).
    rewrite (while_cards_pages (length cards) 0%nat [])
      by (change CARDS_PER_PAGE with 9%nat; lia).
    cbn [snd app]. unfold save. cbn [open_page closed_pages].
    assert (1 <= pages_needed (length cards))%nat as Hnp.
    { unfold pages_needed. change CARDS_PER_PAGE with 9%nat. lia. }
    destruct (page_of cards (pages_needed (length cards) - 1))
      as [|pl page] eqn:Hpage.
    + apply (f_equal length) in Hpage. rewrite length_page_of in Hpage.
      unfold pages_needed in Hpage.
      change CARDS_PER_PAGE with 9%nat in Hpage.
      cbn [length] in Hpage. lia.
    + unfold showPage. cbn [open_page closed_pages].
      rewrite <- Hpage, Nat.sub_0_r.
      replace (pages_needed (length cards))
        with (S (pages_needed (length cards) - 1)) at 3 by lia.
      now rewrite seq_S, map_app.
Qed.

Lemma row_major_lookup p page :
  row_major_document cards !! p = Some page ->
  (p < pages_needed (length cards))%nat /\ page = page_of cards p.
Proof.
  unfold row_major_document. rewrite list_lookup_fmap.
  intros H. destruct (seq 0 (pages_needed (length cards)) !! p)
    as [q|] eqn:Hq; [|discriminate].
  apply lookup_seq in Hq as [-> Hp]. injection H as <-. auto.
Qed.

Lemma page_of_lookup p j pl :
  page_of cards p !! j = Some pl ->
  (j < CARDS_PER_PAGE)%nat
  /\ cards !! (p * CARDS_PER_PAGE + j)%nat = Some (pl_card pl)
  /\ pl = cell (p * CARDS_PER_PAGE + j) (j / CARDS_PER_ROW)
            (j mod CARDS_PER_ROW) (pl_card pl).
Proof.
  unfold page_of. rewrite list_lookup_imap. intros H.
  destruct (take CARDS_PER_PAGE (drop (p * CARDS_PER_PAGE) cards) !! j)
    as [card|] eqn:Hc; [|discriminate].
  injection H as <-. cbn [pl_card cell].
  pose proof (lookup_lt_Some _ _ _ Hc) as Hj.
  rewrite length_take in Hj.
  rewrite lookup_take_lt, lookup_drop in Hc by lia.
  repeat split; [lia | exact Hc].
Qed.
End DocumentFacts.

(** C2. For a non-empty sequence of cards the document is written, and
    in it: the number of pages is the ceiling of the number of cards over
    the cells of a page; every page followed by another holds exactly
    that many placements and no page is empty; the [j]-th placement of
    page [p] is card number [p * CARDS_PER_PAGE + j] of the input, in
    row [j / CARDS_PER_ROW] and column [j mod CARDS_PER_ROW], so that
    rows fill left to right and pages fill one after the other; every
    card is placed; and no two placements share page, row and column. *)
Theorem layout_is_row_major {Card : Type} (cards : list Card) :
  cards <> [] ->
  exists pages,
    create_pdf cards = Some (Ok pages)
    /\ ((length pages - 1) * CARDS_PER_PAGE < length cards
        <= length pages * CARDS_PER_PAGE)%nat
    /\ (forall p page,
          pages !! p = Some page ->
          (1 <= length page <= CARDS_PER_PAGE)%nat
          /\ ((S p < length pages)%nat -> length page = CARDS_PER_PAGE))
    /\ (forall p j pl,
          placed_at pages p j pl ->
          cards !! (p * CARDS_PER_PAGE + j)%nat = Some (pl_card pl)
          /\ pl_index pl = (p * CARDS_PER_PAGE + j)%nat
          /\ pl_row pl = (j / CARDS_PER_ROW)%nat
          /\ pl_column pl = (j mod CARDS_PER_ROW)%nat
          /\ (pl_row pl < CARDS_PER_COL)%nat)
    /\ (forall k card,
          cards !! k = Some card ->
          exists pl,
            placed_at pages (k / CARDS_PER_PAGE) (k mod CARDS_PER_PAGE) pl
            /\ pl_card pl = card)
    /\ (forall p1 j1 pl1 p2 j2 pl2,
          placed_at pages p1 j1 pl1 ->
          placed_at pages p2 j2 pl2 ->
          (p1, pl_row pl1, pl_column pl1) = (p2, pl_row pl2, pl_column pl2) ->
          p1 = p2 /\ j1 = j2).
Proof.
  intros Hne. exists (row_major_document cards).
  assert (length cards <> 0%nat) as Hlen.
  { destruct cards; [congruence | discriminate]. }
  assert (length (row_major_document cards) = pages_needed (length cards))
    as Hpages.
  { unfold row_major_document. now rewrite length_map, length_seq. }
  assert (forall p j pl,
            placed_at (row_major_document cards) p j pl ->
            (p < pages_needed (length cards))%nat
            /\ (j < CARDS_PER_PAGE)%nat
            /\ cards !! (p * CARDS_PER_PAGE + j)%nat = Some (pl_card pl)
            /\ pl = cell (p * CARDS_PER_PAGE + j) (j / CARDS_PER_ROW)
                      (j mod CARDS_PER_ROW) (pl_card pl)) as Hplaced.
  { intros p j pl (page & Hp & Hj).
    apply row_major_lookup in Hp as [Hp ->].
    apply page_of_lookup in Hj as (Hj & Hcard & Hpl). auto. }
  split; [apply create_pdf_document|].
  split.
  { rewrite Hpages. unfold pages_needed.
    change CARDS_PER_PAGE with 9%nat. lia. }
  split.
  { intros p page Hp. apply row_major_lookup in Hp as [Hp ->].
    rewrite length_page_of, Hpages. unfold pages_needed in *.
    change CARDS_PER_PAGE with 9%nat in *. lia. }
  split.
  { intros p j pl H. destruct (Hplaced p j pl H) as (Hp & Hj & Hcard & ->).
    cbn [cell pl_card pl_index pl_row pl_column].
    change CARDS_PER_PAGE with 9%nat in *.
    change CARDS_PER_ROW with 3%nat. change CARDS_PER_COL with 3%nat.
    repeat split; auto; lia. }
  split.
  { intros k card Hk. pose proof (lookup_lt_Some _ _ _ Hk) as Hlt.
    exists (cell k (k mod CARDS_PER_PAGE / CARDS_PER_ROW)
              (k mod CARDS_PER_PAGE mod CARDS_PER_ROW) card).
    split; [|reflexivity].
    exists (page_of cards (k / CARDS_PER_PAGE)). split.
    - unfold row_major_document. rewrite list_lookup_fmap.
      rewrite lookup_seq_lt; [reflexivity|].
      unfold pages_needed. change CARDS_PER_PAGE with 9%nat. lia.
    - unfold page_of. rewrite list_lookup_imap.
      change CARDS_PER_PAGE with 9%nat.
      rewrite lookup_take_lt, lookup_drop by lia.
      replace (k / 9 * 9 + k mod 9)%nat with k by lia.
      rewrite Hk. reflexivity. }
  intros p1 j1 pl1 p2 j2 pl2 H1 H2 Heq.
  destruct (Hplaced _ _ _ H1) as (_ & Hj1 & _ & E1).
  destruct (Hplaced _ _ _ H2) as (_ & Hj2 & _ & E2).
  rewrite E1, E2 in Heq. cbn [cell pl_row pl_column] in Heq.
  apply pair_equal_spec in Heq as [Heq Hcol].
  apply pair_equal_spec in Heq as [-> Hrow].
  change CARDS_PER_PAGE with 9%nat in *.
  change CARDS_PER_ROW with 3%nat in *.
  split; [reflexivity | lia].
Qed.

Lemma layout_witness :
  ["a"; "b"; "c"; "d"; "e"; "f"; "g"; "h"; "i"; "j"] <> @nil string
  /\ exists pages,
       create_pdf ["a"; "b"; "c"; "d"; "e"; "f"; "g"; "h"; "i"; "j"]
       = Some (Ok pages)
       /\ ((length pages - 1) * CARDS_PER_PAGE < 10
           <= length pages * CARDS_PER_PAGE)%nat.
Proof.
  split; [discriminate|].
  destruct (layout_is_row_major
              ["a"; "b"; "c"; "d"; "e"; "f"; "g"; "h"; "i"; "j"])
    as (pages & Hpdf & Hcount & _); [discriminate|].
  exists pages. split; assumption.
Defined.

(** ** Pipeline *)

(** The lookups of one request: exact printing first, fuzzy name when
    that gave nothing or there was no printing. *)
Lemma resolve_lookup_order env st r :
  Gui.resolve env st r
  = (match answer_by_printing env r with
     | Some cd => Some cd
     | None => env_fetch_card_data env (Gui.req_name r)
     end,
     mkRun (run_world st) (card_images st) (errors st)
       (queries st ++ lookup_order env r)).
Proof.
  unfold Gui.resolve, lookup_order, answer_by_printing, printing.
  destruct (Gui.req_set_code r) as [[|a sc]|];
    destruct (Gui.req_collector_number r) as [[|b cn]|];
    cbn [truthy andb]; try reflexivity.
  destruct (env_fetch_card_by_set env (String a sc) (String b cn));
    cbn [app]; [reflexivity|].
  unfold log_query. cbn [queries run_world card_images errors].
  now rewrite <- app_assoc.
Qed.

(** C6. For every request the catalog is asked for the exact printing
    first, when the request has one, and for the fuzzy name when that
    gave nothing or there was no printing; when both give nothing the
    requested name is recorded among the errors, nothing is added to the
    images, and the run goes on with the remaining requests. *)
Theorem resolver_falls_back_and_run_continues
    (env : Env) (st : RunState) (r : Gui.CardRequest)
    (rest : list Gui.CardRequest) :
  Gui.resolve env st r
  = (match answer_by_printing env r with
     | Some cd => Some cd
     | None => env_fetch_card_data env (Gui.req_name r)
     end,
     mkRun (run_world st) (card_images st) (errors st)
       (queries st ++ lookup_order env r))
  /\ (answer_by_printing env r = None ->
      env_fetch_card_data env (Gui.req_name r) = None ->
      exists st',
        Gui.process_entry env st r = Ok st'
        /\ errors st' = errors st ++ [Gui.req_name r]
        /\ card_images st' = card_images st
        /\ run_world st' = run_world st
        /\ Gui.fetch_cards_thread env st (r :: rest)
           = Gui.fetch_cards_thread env st' rest).
Proof.
  split; [apply resolve_lookup_order|].
  intros Hprinting Hname.
  cbn [Gui.fetch_cards_thread]. unfold Gui.process_entry.
  rewrite resolve_lookup_order, Hprinting, Hname.
  eexists. split; [reflexivity|]. cbn [bind]. repeat split.
Qed.

Lemma resolver_witness :
  let r := Gui.mkRequest "Blak Lotus" 1 (Some "lea") (Some "232") in
  let later := Gui.mkRequest "sol ring" 2 None None in
  answer_by_printing sample_env r = None
  /\ env_fetch_card_data sample_env "Blak Lotus" = None
  /\ exists st',
       Gui.process_entry sample_env empty_run r = Ok st'
       /\ errors st' = ["Blak Lotus"]
       /\ queries st' = [ByPrinting "lea" "232"; ByFuzzyName "Blak Lotus"]
       /\ Gui.fetch_cards_thread sample_env empty_run [r; later]
          = Gui.fetch_cards_thread sample_env st' [later].
Proof.
  intros r later. split; [reflexivity|]. split; [reflexivity|].
  destruct (resolver_falls_back_and_run_continues sample_env empty_run r
              [later]) as [_ H].
  destruct (H eq_refl eq_refl) as (st' & Hp & He & _ & _ & Hrun).
  exists st'. split; [exact Hp|]. split; [exact He|].
  split; [|exact Hrun].
  vm_compute in Hp. injection Hp as <-. reflexivity.
Defined.





(** The command-line program replicates in the same way. *)
Lemma cli_quantity_copies (env : Env) (use_cache : bool) (dpi : Z)
    (st : RunState) (card_name : string) (quantity : Z) (cd : CardData)
    (url path : string) (w : World) (img : Image) :
  let actual_name := get_name (cd_name cd) card_name in
  env_fetch_card_data env card_name = Some cd ->
  Cli.get_image_url cd = Some url ->
  url <> "" ->
  Cli.download_image (env_http_get env) (run_world st) url actual_name
    use_cache = (Some path, w) ->
  open_and_resize env w path dpi = Ok img ->
  exists st',
    Cli.process_entry env use_cache dpi st (card_name, quantity) = Ok st'
    /\ card_images st'
       = card_images st ++ repeat (actual_name, img) (Z.to_nat quantity).
Proof.
  intros actual_name Hcd Hurl Hne Hdl Himg.
  unfold Cli.process_entry. rewrite Hcd, Hurl.
  destruct url as [|c url]; [congruence|]. cbn [truthy negb].
  fold actual_name. cbn [log_query run_world]. rewrite Hdl, Himg.
  cbn [bind]. eexists. split; reflexivity.
Qed.

(** * Further properties of the code *)

(** ** File names: [sanitize_filename] *)

Lemma sanitize_char_safe c : safe_char (sanitize_char c) = true.
Proof. case_ascii c; vm_compute; reflexivity. Qed.

Lemma safe_char_fixed c : safe_char c = true -> sanitize_char c = c.
Proof. case_ascii c; vm_compute; congruence. Qed.

Lemma length_map_chars f s :
  String.length (Text.map_chars f s) = String.length s.
Proof. induction s as [|c s IH]; simpl; [reflexivity | now rewrite IH]. Qed.

(** X1. A sanitized name has the length of the name and holds no space, no
    reserved character and no uppercase letter; sanitizing it again
    changes nothing. *)
Theorem sanitize_filename_is_safe (name : string) :
  String.length (sanitize_filename name) = String.length name
  /\ Text.forall_chars safe_char (sanitize_filename name) = true
  /\ sanitize_filename (sanitize_filename name) = sanitize_filename name.
Proof.
  rewrite !sanitize_filename_map. split; [apply length_map_chars|].
  induction name as [|c name [IH1 IH2]]; simpl; [auto|].
  rewrite sanitize_char_safe, IH1, IH2.
  now rewrite (safe_char_fixed _ (sanitize_char_safe c)).
Qed.

(** ** Cache store: what a download leaves alone *)

Lemma fetch_to_frame fetch w url path use_cache :
  let res := fetch_to fetch w url path use_cache in
  (forall k, k <> path -> files (snd res) !! k = files w !! k)
  /\ (requests_made (snd res) = requests_made w
      \/ requests_made (snd res) = requests_made w ++ [url])
  /\ (fst res = None -> files (snd res) = files w)
  /\ (forall p, fst res = Some p ->
        p = path /\ is_Some (files (snd res) !! path))
  /\ (forall content,
        use_cache = false -> fetch url = Some content ->
        fst res = Some path /\ files (snd res) !! path = Some content).
Proof.
  unfold fetch_to.
  destruct (use_cache && bool_decide (is_Some (files w !! path)))
    eqn:Hhit; cbn zeta.
  - apply andb_prop in Hhit as [-> Hp]. apply bool_decide_eq_true in Hp.
    cbn [fst snd]. repeat split; auto; try congruence; discriminate.
  - destruct (fetch url) as [content|]; cbn [fst snd files requests_made].
    + repeat split; auto; try congruence.
      * intros k Hk. now rewrite lookup_insert_ne.
      * rewrite lookup_insert_eq. eauto.
      * injection H0 as <-. apply lookup_insert_eq.
    + repeat split; auto; discriminate.
Qed.

(** X2. [download_image], in both programs: no cached file but the one under
    the key of the call is changed, at most one request is made, for the
    URL given; a call that returns a path returns the key and the file
    is there; a call that returns nothing leaves the files as they were;
    and with the cache bypassed a successful fetch replaces what was
    stored under the key. *)
Theorem download_image_touches_one_file
    (fetch : string -> option string) (w : World)
    (url card_name : string) (use_cache : bool)
    (set_code collector_number : option string) :
  let gui :=
    Gui.download_image fetch w url card_name use_cache set_code
      collector_number in
  let cli := Cli.download_image fetch w url card_name use_cache in
  let gui_key := Gui.cache_path card_name set_code collector_number in
  let cli_key := Cli.cache_path card_name in
  ((forall k, k <> gui_key -> files (snd gui) !! k = files w !! k)
   /\ (requests_made (snd gui) = requests_made w
       \/ requests_made (snd gui) = requests_made w ++ [url])
   /\ (fst gui = None -> files (snd gui) = files w)
   /\ (forall p, fst gui = Some p ->
         p = gui_key /\ is_Some (files (snd gui) !! gui_key))
   /\ (forall content,
         use_cache = false -> fetch url = Some content ->
         fst gui = Some gui_key
         /\ files (snd gui) !! gui_key = Some content))
  /\ ((forall k, k <> cli_key -> files (snd cli) !! k = files w !! k)
      /\ (requests_made (snd cli) = requests_made w
          \/ requests_made (snd cli) = requests_made w ++ [url])
      /\ (fst cli = None -> files (snd cli) = files w)
      /\ (forall p, fst cli = Some p ->
            p = cli_key /\ is_Some (files (snd cli) !! cli_key))
      /\ (forall content,
            use_cache = false -> fetch url = Some content ->
            fst cli = Some cli_key
            /\ files (snd cli) !! cli_key = Some content)).
Proof.
  split; apply fetch_to_frame.
Qed.

(** ** Image normalizer: the compositing over white *)

Lemma blend8_over_white a fg :
  byte_range a -> byte_range fg ->
  fg <= blend8 a 255 fg <= 255
  /\ (a = 255 -> blend8 a 255 fg = fg)
  /\ (a = 0 -> blend8 a 255 fg = 255).
Proof.
  unfold byte_range, blend8. intros Ha Hfg.
  rewrite !Z.shiftr_div_pow2 by lia. change (2 ^ 8) with 256.
  set (tmp := 255 * (255 - a) + fg * a + 128).
  assert (255 * fg + 128 <= tmp <= 65153) as Ht by (unfold tmp; nia).
  split; [lia|]. split; intros ->; unfold tmp; lia.
Qed.

(** X3. For a source in mode RGBA or P whose pixel has 8-bit channels, the
    flattened pixel is opaque, each of its channels lies between the
    channel of the source and white, an opaque pixel keeps its colour
    and a fully transparent one becomes white. *)
Theorem flattening_composites_over_white (img : Image) (x y : Z) :
  mode img = "RGBA" \/ mode img = "P" ->
  byte_range (red (pixel img x y)) ->
  byte_range (green (pixel img x y)) ->
  byte_range (blue (pixel img x y)) ->
  byte_range (alpha (pixel img x y)) ->
  let p := pixel img x y in
  let q := pixel (to_rgb img) x y in
  alpha q = 255
  /\ red p <= red q <= 255
  /\ green p <= green q <= 255
  /\ blue p <= blue q <= 255
  /\ (alpha p = 255 -> q = mkPixel (red p) (green p) (blue p) 255)
  /\ (alpha p = 0 -> q = white).
Proof.
  intros Hmode Hr Hg Hb Ha p q. unfold q. rewrite to_rgb_pixels.
  assert (String.eqb (mode img) "RGBA" || String.eqb (mode img) "P" = true)
    as ->.
  { destruct Hmode as [-> | ->]; reflexivity. }
  fold p. unfold composited_on_white. cbn [red green blue alpha].
  destruct (blend8_over_white _ _ Ha Hr) as (Br & Br1 & Br0).
  destruct (blend8_over_white _ _ Ha Hg) as (Bg & Bg1 & Bg0).
  destruct (blend8_over_white _ _ Ha Hb) as (Bb & Bb1 & Bb0).
  fold p in Br, Bg, Bb, Br1, Bg1, Bb1, Br0, Bg0, Bb0.
  repeat split; try lia.
  - intros H. now rewrite (Br1 H), (Bg1 H), (Bb1 H).
  - intros H. now rewrite (Br0 H), (Bg0 H), (Bb0 H).
Qed.

Lemma flattening_witness :
  let img := mkImage "RGBA" 1 1 (fun _ _ => mkPixel 10 20 30 128) in
  (mode img = "RGBA" \/ mode img = "P")
  /\ byte_range (red (pixel img 0 0))
  /\ byte_range (green (pixel img 0 0))
  /\ byte_range (blue (pixel img 0 0))
  /\ byte_range (alpha (pixel img 0 0))
  /\ alpha (pixel (to_rgb img) 0 0) = 255
  /\ 10 <= red (pixel (to_rgb img) 0 0) <= 255.
Proof.
  intros img.
  assert (byte_range 10 /\ byte_range 20 /\ byte_range 30
          /\ byte_range 128) as (H1 & H2 & H3 & H4)
    by (unfold byte_range; lia).
  split; [now left|]. do 4 (split; [assumption|]).
  destruct (flattening_composites_over_white img 0 0 (or_introl eq_refl)
              H1 H2 H3 H4) as (Ha & Hr & _).
  split; assumption.
Defined.

(** ** Preview grid: [add_preview_card] *)

Lemma length_substring_0 n s :
  String.length (String.substring 0 n s) = Nat.min n (String.length s).
Proof.
  revert s. induction n as [|n IH]; intros [|c s]; simpl; auto.
Qed.

(** X4. The card added after [shown] others goes to a cell of the preview
    grid that no earlier card took while the canvas kept its width: the
    column is below the number of cards per row, which is at least one
    whatever the width, and row and column give back [shown].  Its label
    is the name, cut to 18 characters and three dots when longer. *)
Theorem preview_cell_and_label (shown : nat) (winfo_width : Z)
    (card_name : string) :
  let card := MTGProxyGUI.add_preview_card shown winfo_width card_name in
  let cards_per_row :=
    Z.max 1 ((winfo_width - 20) / (MTGProxyGUI.PREVIEW_CARD_WIDTH + 10)) in
  0 <= MTGProxyGUI.pv_row card
  /\ 0 <= MTGProxyGUI.pv_column card < cards_per_row
  /\ MTGProxyGUI.pv_row card * cards_per_row + MTGProxyGUI.pv_column card
     = Z.of_nat shown
  /\ (forall shown' name',
        let card' :=
          MTGProxyGUI.add_preview_card shown' winfo_width name' in
        MTGProxyGUI.pv_row card' = MTGProxyGUI.pv_row card ->
        MTGProxyGUI.pv_column card' = MTGProxyGUI.pv_column card ->
        shown' = shown)
  /\ (String.length (MTGProxyGUI.pv_display_name card) <= 21)%nat
  /\ ((String.length card_name <= 18)%nat ->
      MTGProxyGUI.pv_display_name card = card_name)
  /\ ((18 < String.length card_name)%nat ->
      MTGProxyGUI.pv_display_name card
      = String.substring 0 18 card_name +:+ "...").
Proof.
  cbn zeta. unfold MTGProxyGUI.add_preview_card.
  cbn [MTGProxyGUI.pv_row MTGProxyGUI.pv_column
       MTGProxyGUI.pv_display_name].
  set (cpr := Z.max 1 ((winfo_width - 20)
                       / (MTGProxyGUI.PREVIEW_CARD_WIDTH + 10))).
  assert (1 <= cpr) as Hcpr by (unfold cpr; lia).
  assert ((cpr <? 1) = false) as -> by (apply Z.ltb_ge; lia).
  replace (Z.of_nat (S shown) - 1) with (Z.of_nat shown) by lia.
  split; [apply Z.div_pos; lia|].
  split; [apply Z.mod_pos_bound; lia|].
  split; [rewrite Z.mul_comm; symmetry; apply Z.div_mod; lia|].
  split.
  { intros shown' name' Hrow Hcol.
    replace (Z.of_nat (S shown') - 1) with (Z.of_nat shown') in * by lia.
    pose proof (Z.div_mod (Z.of_nat shown) cpr ltac:(lia)) as E.
    pose proof (Z.div_mod (Z.of_nat shown') cpr ltac:(lia)) as E'.
    rewrite Hrow, Hcol in E'. lia. }
  destruct (18 <? String.length card_name)%nat eqn:Hlen.
  - apply Nat.ltb_lt in Hlen.
    split; [|split; [lia | reflexivity]].
    rewrite length_append, length_substring_0.
    cbn [String.length]. lia.
  - apply Nat.ltb_ge in Hlen.
    split; [lia|]. split; [reflexivity | lia].
Qed.

(** ** Sheet layout: geometry and conservation *)

(** X5. Every card of the document lies on the page, and two cards of one
    page do not overlap. *)
Theorem cards_fit_the_page_and_keep_apart {Card : Type}
    (cards : list Card) :
  exists pages,
    create_pdf cards = Some (Ok pages)
    /\ (forall p j pl, placed_at pages p j pl -> on_page pl)
    /\ (forall p j1 j2 pl1 pl2,
          placed_at pages p j1 pl1 -> placed_at pages p j2 pl2 ->
          j1 <> j2 -> apart pl1 pl2).
Proof.
  exists (row_major_document cards).
  split; [apply create_pdf_document|]. split.
  - intros p j pl (page & Hp & Hj).
    apply row_major_lookup in Hp as [_ ->].
    apply page_of_lookup in Hj as (Hlt & _ & ->).
    unfold on_page, cell. cbn [pl_x pl_y].
    change CARDS_PER_PAGE with 9%nat in Hlt.
    change CARDS_PER_ROW with 3%nat.
    change margin_x with 36. change margin_y with 18.
    change page_width with 612. change page_height with 792.
    change card_width_pts with 180. change card_height_pts with 252.
    lia.
  - intros p j1 j2 pl1 pl2 (page1 & Hp1 & Hj1) (page2 & Hp2 & Hj2) Hne.
    apply row_major_lookup in Hp1 as [_ ->].
    apply row_major_lookup in Hp2 as [_ ->].
    apply page_of_lookup in Hj1 as (Hlt1 & _ & ->).
    apply page_of_lookup in Hj2 as (Hlt2 & _ & ->).
    unfold apart, cell. cbn [pl_x pl_y].
    change CARDS_PER_PAGE with 9%nat in Hlt1, Hlt2.
    change CARDS_PER_ROW with 3%nat.
    change margin_x with 36. change margin_y with 18.
    change page_height with 792.
    change card_width_pts with 180. change card_height_pts with 252.
    lia.
Qed.

Section Conservation.
Context {Card : Type}.
Variable cards : list Card.

Lemma page_of_cards p :
  map pl_card (page_of cards p)
  = take CARDS_PER_PAGE (drop (p * CARDS_PER_PAGE) cards).
Proof.
  apply list_eq. intros j. unfold page_of.
  rewrite list_lookup_fmap, list_lookup_imap.
  now destruct (take _ _ !! j).
Qed.

Lemma page_of_indices p :
  map pl_index (page_of cards p)
  = seq (p * CARDS_PER_PAGE) (length (page_of cards p)).
Proof.
  apply list_eq. intros j. unfold page_of.
  rewrite list_lookup_fmap, list_lookup_imap, length_imap.
  destruct (take _ _ !! j) as [card|] eqn:Hj; cbn.
  - symmetry. apply lookup_seq. split; [reflexivity|].
    now apply lookup_lt_Some in Hj.
  - symmetry. apply lookup_seq_ge. now apply lookup_ge_None in Hj.
Qed.

Lemma pages_cards n :
  concat (map (fun p => map pl_card (page_of cards p)) (seq 0 n))
  = take (n * CARDS_PER_PAGE) cards.
Proof.
  induction n as [|n IH]; [reflexivity|].
  rewrite seq_S, map_app, concat_app, IH. cbn [map concat Nat.add].
  rewrite app_nil_r, page_of_cards, take_take_drop.
  f_equal. lia.
Qed.

Lemma pages_indices n :
  concat (map (fun p => map pl_index (page_of cards p)) (seq 0 n))
  = seq 0 (Nat.min (n * CARDS_PER_PAGE) (length cards)).
Proof.
  induction n as [|n IH]; [reflexivity|].
  rewrite seq_S, map_app, concat_app, IH. cbn [map concat Nat.add].
  rewrite app_nil_r, page_of_indices, length_page_of.
  change CARDS_PER_PAGE with 9%nat.
  destruct (Nat.le_gt_cases (length cards) (n * 9)) as [Hle|Hgt].
  - replace (Nat.min 9 (length cards - n * 9)) with 0%nat by lia.
    cbn [seq]. rewrite app_nil_r. f_equal. lia.
  - replace (Nat.min (n * 9) (length cards)) with (n * 9)%nat by lia.
    rewrite <- seq_app. f_equal. lia.
Qed.
End Conservation.

(** X6. The cards drawn, read page after page in drawing order, are the
    cards of the input, each once and in the order given; an empty
    input gives a document without drawings. *)
Theorem every_card_is_drawn_once_in_order {Card : Type}
    (cards : list Card) :
  exists pages,
    create_pdf cards = Some (Ok pages)
    /\ map pl_card (concat pages) = cards
    /\ map pl_index (concat pages) = seq 0 (length cards).
Proof.
  exists (row_major_document cards).
  split; [apply create_pdf_document|].
  assert (length cards <= pages_needed (length cards) * CARDS_PER_PAGE)%nat
    as Hcover.
  { unfold pages_needed. change CARDS_PER_PAGE with 9%nat. lia. }
  unfold row_major_document. split.
  - rewrite concat_map, map_map, pages_cards.
    now apply firstn_all2.
  - rewrite concat_map, map_map, pages_indices.
    f_equal. lia.
Qed.

(** ** Pipeline: what a run accounts for *)
















(** ** Decklist parsers: what every parsed entry satisfies *)

Section StripFacts.
Variable p : ascii -> bool.

Lemma rstrip_cons c s :
  Text.rstrip_with p (String c s)
  = match Text.rstrip_with p s with
    | EmptyString => if p c then EmptyString else String c EmptyString
    | r => String c r
    end.
Proof. reflexivity. Qed.

Lemma rstrip_with_all s :
  Text.forall_chars p s = true -> Text.rstrip_with p s = "".
Proof.
  induction s as [|c s IH]; intros H; [reflexivity|].
  cbn [Text.forall_chars] in H. apply andb_prop in H as [Hc Hs].
  now rewrite rstrip_cons, (IH Hs), Hc.
Qed.

Lemma rstrip_with_idem s :
  Text.rstrip_with p (Text.rstrip_with p s) = Text.rstrip_with p s.
Proof.
  induction s as [|c s IH]; [reflexivity|].
  rewrite rstrip_cons.
  destruct (Text.rstrip_with p s) as [|c' r] eqn:E.
  - destruct (p c) eqn:Hc; [reflexivity|].
    now rewrite rstrip_cons, Hc.
  - now rewrite rstrip_cons, IH.
Qed.

Lemma rstrip_with_suffix a b :
  Text.rstrip_with p (a +:+ b) = a +:+ b -> b <> "" ->
  Text.rstrip_with p b = b.
Proof.
  induction a as [|c a IH]; [auto|].
  change (String c a +:+ b) with (String c (a +:+ b)).
  rewrite rstrip_cons. intros H Hb.
  destruct (Text.rstrip_with p (a +:+ b)) as [|c' r] eqn:E.
  - destruct (p c); [discriminate|]. injection H as H.
    destruct a; [|discriminate]. now symmetry in H.
  - injection H as H. exact (IH H Hb).
Qed.

Lemma rstrip_with_none s :
  Text.forall_chars (fun c => negb (p c)) s = true ->
  Text.rstrip_with p s = s.
Proof.
  induction s as [|c s IH]; intros H; [reflexivity|].
  cbn [Text.forall_chars] in H. apply andb_prop in H as [Hc Hs].
  rewrite rstrip_cons, (IH Hs). destruct s; [|reflexivity].
  now destruct (p c).
Qed.


Lemma lstrip_with_none s :
  Text.forall_chars (fun c => negb (p c)) s = true ->
  Text.lstrip_with p s = s.
Proof.
  destruct s as [|c s]; intros H; [reflexivity|].
  cbn [Text.forall_chars] in H. apply andb_prop in H as [Hc _].
  cbn [Text.lstrip_with]. now destruct (p c).
Qed.

Lemma lstrip_with_split s :
  exists w, s = w +:+ Text.lstrip_with p s
            /\ Text.forall_chars p w = true.
Proof.
  induction s as [|c s (w & Hw & Hp)]; [now exists ""|].
  cbn [Text.lstrip_with]. destruct (p c) eqn:Hc.
  - exists (String c w). cbn [String.append Text.forall_chars].
    rewrite Hc, Hp. split; [now rewrite <- Hw|reflexivity].
  - now exists "".
Qed.

Lemma lstrip_with_idem s :
  Text.lstrip_with p (Text.lstrip_with p s) = Text.lstrip_with p s.
Proof.
  induction s as [|c s IH]; [reflexivity|].
  cbn [Text.lstrip_with]. destruct (p c) eqn:Hc; [exact IH|].
  cbn [Text.lstrip_with]. now rewrite Hc.
Qed.

End StripFacts.

Lemma strip_rstrip s :
  Text.rstrip_with Text.isspace (Text.strip s) = Text.strip s.
Proof.
  unfold Text.strip. set (r := Text.rstrip_with Text.isspace s).
  assert (Text.rstrip_with Text.isspace r = r) as Hr
    by apply rstrip_with_idem.
  destruct (lstrip_with_split Text.isspace r) as (w & Hw & _).
  destruct (Text.lstrip_with Text.isspace r) as [|c t] eqn:E;
    [reflexivity|].
  apply (rstrip_with_suffix Text.isspace w); [|discriminate].
  now rewrite <- Hw.
Qed.

Lemma strip_idem s : Text.strip (Text.strip s) = Text.strip s.
Proof.
  unfold Text.strip at 1. rewrite strip_rstrip.
  unfold Text.strip. apply lstrip_with_idem.
Qed.

Lemma no_space_forall s :
  has_space s = false ->
  Text.forall_chars (fun c => negb (Text.isspace c)) s = true.
Proof.
  induction s as [|c s IH]; [reflexivity|].
  cbn [has_space Text.forall_chars]. intros H.
  apply orb_false_elim in H as [-> Hs]. now rewrite IH.
Qed.

Lemma forall_no_space s :
  Text.forall_chars (fun c => negb (Text.isspace c)) s = true ->
  has_space s = false.
Proof.
  induction s as [|c s IH]; [reflexivity|].
  cbn [has_space Text.forall_chars]. intros H.
  apply andb_prop in H as [Hc Hs]. rewrite (IH Hs).
  now destruct (Text.isspace c).
Qed.

Lemma strip_no_space s : has_space s = false -> Text.strip s = s.
Proof.
  intros H. apply no_space_forall in H. unfold Text.strip.
  now rewrite (rstrip_with_none _ _ H), (lstrip_with_none _ _ H).
Qed.


Section PatternParts.
Variable ic : bool.
Variable subject : string.
Local Abbreviation matches := (Regex.matches ic subject).

Lemma inv_eol_end s cs s' cs' :
  matches Regex.Eol s cs s' cs' ->
  cs' = cs /\ s' = s /\ (s = "" \/ s = String "010" "").
Proof. inversion 1; subst; eauto. Qed.

(** The head common to both patterns, with its parts. *)
Lemma count_head_parts rest s cs s' cs' :
  matches
    (Regex.Bol
     ~> Regex.Grp 1 (Regex.Plus true Regex.CDigit)
     ~> Regex.Opt (Regex.Chr (Regex.CLit "x"))
     ~> Regex.Plus true Regex.CSpace
     ~> rest)%re s cs s' cs' ->
  exists d xs w u,
    s = d +:+ xs +:+ w +:+ u /\ d <> ""
    /\ Text.forall_chars Text.isdigit d = true
    /\ (xs = "" \/ xs = "x" \/ xs = "X")
    /\ w <> "" /\ Text.forall_chars Text.isspace w = true
    /\ matches rest u (<[1%nat := d]> cs) s' cs'.
Proof.
  intros H.
  apply inv_cat in H as (s0 & cs0 & Hbol & H).
  apply inv_bol in Hbol as [-> ->].
  apply inv_cat in H as (s1 & cs1 & Hg & H).
  apply inv_grp in Hg as (cs1' & Hd & ->).
  apply inv_plus in Hd as (-> & d & -> & Hne & Hd).
  rewrite consumed_append in H.
  apply inv_cat in H as (s2 & cs2 & Hx & H).
  apply inv_cat in H as (u & cs3 & Hs & H).
  apply inv_plus in Hs as (-> & w & -> & Hw & Hsp).
  change (Regex.test ic Regex.CSpace) with Text.isspace in Hsp.
  change (Regex.test ic Regex.CDigit) with Text.isdigit in Hd.
  apply inv_opt in Hx as [[-> <-] | Hx].
  - exists d, "", w, u. repeat split; auto.
  - apply inv_chr in Hx as (-> & c & -> & Hc).
    assert (c = "x"%char \/ c = "X"%char) as Hcx.
    { revert Hc. destruct ic; case_ascii c; vm_compute; auto;
        discriminate. }
    exists d, (String c ""), w, u.
    repeat split; auto.
    destruct Hcx as [-> | ->]; auto.
Qed.
End PatternParts.

(** A line accepted by the simple pattern, part by part. *)
Lemma simple_match_parts e m :
  Regex.re_match simple_pattern e true = Some m ->
  exists d xs w g2 tail,
    e = d +:+ xs +:+ w +:+ g2 +:+ tail
    /\ d <> "" /\ Text.forall_chars Text.isdigit d = true
    /\ (xs = "" \/ xs = "x" \/ xs = "X")
    /\ w <> "" /\ Text.forall_chars Text.isspace w = true
    /\ g2 <> ""
    /\ Text.forall_chars (fun c => negb (Ascii.eqb c "010")) g2 = true
    /\ (tail = "" \/ tail = String "010" "")
    /\ Regex.group m 1 = Some d /\ Regex.group m 2 = Some g2.
Proof.
  intros H. apply re_match_sound in H as [s' H].
  unfold simple_pattern in H.
  apply count_head_parts in H
    as (d & xs & w & u & -> & Hne & Hd & Hxs & Hwne & Hw & H).
  apply inv_cat in H as (s1 & cs1 & Hg & He).
  apply inv_grp in Hg as (cs0 & Hp & ->).
  apply inv_plus in Hp as (-> & g2 & -> & Hg2ne & Hg2).
  apply inv_eol_end in He as (-> & -> & Htail).
  rewrite consumed_append.
  exists d, xs, w, g2, s1. unfold Regex.group.
  repeat split; auto; simplify_map_eq; reflexivity.
Qed.

Lemma alnum_class c :
  Regex.test true (Regex.CSet [("A", "Z"); ("a", "z"); ("0", "9")]%char) c
  = true ->
  lower_alnum (Text.lower_char c) = true /\ Text.isspace c = false.
Proof. case_ascii c; vm_compute; auto; discriminate. Qed.

Lemma alnum_run g :
  Text.forall_chars
    (Regex.test true (Regex.CSet [("A", "Z"); ("a", "z"); ("0", "9")]%char))
    g = true ->
  Text.forall_chars lower_alnum (Text.lower g) = true
  /\ has_space g = false.
Proof.
  induction g as [|c g IH]; [auto|].
  cbn [Text.forall_chars Text.lower Text.map_chars has_space]. intros H.
  apply andb_prop in H as [Hc Hg].
  destruct (alnum_class c Hc) as [H1 H2], (IH Hg) as [H3 H4].
  fold (Text.lower g). now rewrite H1, H2, H3, H4.
Qed.

Lemma literal_class ic a c :
  (a = "("%char \/ a = ")"%char \/ a = "*"%char) ->
  Regex.test ic (Regex.CLit a) c = true -> c = a.
Proof.
  intros [-> | [-> | ->]]; destruct ic; case_ascii c; vm_compute;
    auto; discriminate.
Qed.

(** A line accepted by the printing-qualified pattern, part by part. *)
Lemma moxfield_match_parts e m :
  Regex.re_match moxfield_pattern e true = Some m ->
  exists d xs w1 g2 w2 g3 w3 g4 foil w4 tail,
    e = d +:+ xs +:+ w1 +:+ g2 +:+ w2
        +:+ String "(" (g3 +:+ String ")" (w3 +:+ g4 +:+ foil +:+ w4
                                           +:+ tail))
    /\ (d <> "" /\ Text.forall_chars Text.isdigit d = true)
    /\ (xs = "" \/ xs = "x" \/ xs = "X")
    /\ (w1 <> "" /\ Text.forall_chars Text.isspace w1 = true)
    /\ (g2 <> ""
        /\ Text.forall_chars (fun c => negb (Ascii.eqb c "010")) g2 = true)
    /\ (w2 <> "" /\ Text.forall_chars Text.isspace w2 = true)
    /\ (g3 <> ""
        /\ Text.forall_chars lower_alnum (Text.lower g3) = true
        /\ has_space g3 = false)
    /\ (w3 <> "" /\ Text.forall_chars Text.isspace w3 = true)
    /\ (g4 <> "" /\ has_space g4 = false)
    /\ foil_marker foil
    /\ Text.forall_chars Text.isspace w4 = true
    /\ (tail = "" \/ tail = String "010" "")
    /\ Regex.group m 1 = Some d /\ Regex.group m 2 = Some g2
    /\ Regex.group m 3 = Some g3 /\ Regex.group m 4 = Some g4.
Proof.
  intros H. apply re_match_sound in H as [s' H].
  unfold moxfield_pattern in H.
  apply count_head_parts in H
    as (d & xs & w1 & u & -> & Hne & Hd & Hxs & Hw1ne & Hw1 & H).
  apply inv_cat in H as (s2 & cs2 & Hg2 & H).
  apply inv_grp in Hg2 as (cs2' & Hg2 & ->).
  apply inv_plus in Hg2 as (-> & g2 & -> & Hg2ne & Hg2).
  rewrite consumed_append in H.
  apply inv_cat in H as (s3 & cs3 & Hw2 & H).
  apply inv_plus in Hw2 as (-> & w2 & -> & Hw2ne & Hw2).
  apply inv_cat in H as (s4 & cs4 & Hop & H).
  apply inv_chr in Hop as (-> & c1 & -> & Hc1).
  apply literal_class in Hc1 as ->; [|auto].
  apply inv_cat in H as (s5 & cs5 & Hg3 & H).
  apply inv_grp in Hg3 as (cs5' & Hg3 & ->).
  apply inv_plus in Hg3 as (-> & g3 & -> & Hg3ne & Hg3).
  rewrite consumed_append in H.
  apply inv_cat in H as (s6 & cs6 & Hcl & H).
  apply inv_chr in Hcl as (-> & c2 & -> & Hc2).
  apply literal_class in Hc2 as ->; [|auto].
  apply inv_cat in H as (s7 & cs7 & Hw3 & H).
  apply inv_plus in Hw3 as (-> & w3 & -> & Hw3ne & Hw3).
  apply inv_cat in H as (s8 & cs8 & Hg4 & H).
  apply inv_grp in Hg4 as (cs8' & Hg4 & ->).
  apply inv_plus in Hg4 as (-> & g4 & -> & Hg4ne & Hg4).
  rewrite consumed_append in H.
  apply inv_cat in H as (s9 & cs9 & Hfoil & H).
  apply inv_cat in H as (s10 & cs10 & Hw4 & H).
  apply inv_star in Hw4 as (-> & w4 & -> & Hw4).
  apply inv_eol_end in H as (-> & -> & Htail).
  apply alnum_run in Hg3 as [Hg3 Hg3s].
  change (Regex.test true Regex.CSpace) with Text.isspace in *.
  change (Regex.test true Regex.CNotSpace)
    with (fun c => negb (Text.isspace c)) in Hg4.
  apply forall_no_space in Hg4.
  assert (exists foil,
            s8 = foil +:+ w4 +:+ s10 /\ foil_marker foil
            /\ cs9 = <[4%nat := g4]>
                       (<[3%nat := g3]>
                          (<[2%nat := g2]> (<[1%nat := d]> ∅))))
    as (foil & -> & Hfm & ->).
  { apply inv_opt in Hfoil as [[-> <-] | Hfoil].
    - exists "". split; [reflexivity|]. split; [now left | reflexivity].
    - apply inv_cat in Hfoil as (t1 & ct1 & Hw5 & Hfoil).
      apply inv_plus in Hw5 as (-> & w5 & -> & Hw5ne & Hw5).
      apply inv_cat in Hfoil as (t2 & ct2 & Hst1 & Hfoil).
      apply inv_chr in Hst1 as (-> & c3 & -> & Hc3).
      apply literal_class in Hc3 as ->; [|auto].
      apply inv_cat in Hfoil as (t3 & ct3 & Hls & Hst2).
      apply inv_plus in Hls as (-> & ls & -> & Hlsne & Hls).
      apply inv_chr in Hst2 as (-> & c4 & -> & Hc4).
      apply literal_class in Hc4 as ->; [|auto].
      exists (w5 +:+ String "*" (ls +:+ "*")).
      split.
      { rewrite !append_assoc. cbn [String.append].
        now rewrite !append_assoc. }
      split; [|reflexivity]. right. exists w5, ls. auto. }
  exists d, xs, w1, g2, w2, g3, w3, g4, foil, w4, s10.
  unfold Regex.group.
  repeat split; auto; simplify_map_eq; reflexivity.
Qed.

Lemma group_strip_value m n g :
  Regex.group m n = Some g -> group_strip m n = Ok (Text.strip g).
Proof. intros Hg. unfold group_strip. now rewrite Hg. Qed.





Lemma truthy_name name : truthy (Some name) = true -> name <> "".
Proof. now destruct name. Qed.




(** ** Decklist parsers: where the two programs agree *)

Lemma contains_char_append ch a b :
  contains_char ch (a +:+ b) = contains_char ch a || contains_char ch b.
Proof.
  unfold contains_char. induction a as [|c a IH]; [reflexivity|].
  cbn [String.append Text.forall_chars].
  destruct (Ascii.eqb c ch); [reflexivity|]. exact IH.
Qed.


Lemma moxfield_needs_parenthesis e :
  contains_char "(" e = false ->
  Regex.re_match moxfield_pattern e true = None.
Proof.
  intros He.
  destruct (Regex.re_match moxfield_pattern e true) as [m|] eqn:E;
    [|reflexivity].
  apply moxfield_match_parts in E
    as (d & xs & w1 & g2 & w2 & g3 & w3 & g4 & foil & w4 & tail & ->
        & _).
  rewrite !contains_char_append in He.
  unfold contains_char at 6 in He. cbn [Text.forall_chars] in He.
  change (Ascii.eqb "(" "(") with true in He. cbn [negb andb] in He.
  now rewrite !orb_true_r in He.
Qed.



(** ** From the decklist text to the images *)






(** ** Image normalizer: how far the scaled image covers the card *)









(** The bound is reached: an image of 327 by 458 pixels, the very size
    of a card at 131 dots per inch, is scaled to 327 by 457, and the
    first row of the output is padding. *)
Lemma one_pixel_short_at_131_dpi :
  (target_width 131, target_height 131) = (327, 458)
  /\ scaled_size 327 458 327 458 = Ok (327, 457)
  /\ exists out,
       resize_card_image nearest
         (mkImage "RGB" 327 458 (fun _ _ => white)) 131 = Ok out
       /\ pixel out 0 0 = black /\ pixel out 0 1 = white.
Proof.
  split; [vm_compute; reflexivity|]. split; [vm_compute; reflexivity|].
  eexists. split; [vm_compute; reflexivity|].
  split; vm_compute; reflexivity.
Qed.

(** ** The matcher finds a match when there is one *)

Section MatcherComplete.
Variable ic : bool.
Variable subject : string.
Context {R : Type}.

Lemma star_greedy_complete cl w : forall s (k : string -> option R),
  Text.forall_chars (Regex.test ic cl) w = true ->
  is_Some (k s) ->
  is_Some (Regex.star_greedy ic cl (w +:+ s) k).
Proof.
  induction w as [|c w IH]; intros s k Hw Hk.
  - cbn [String.append]. destruct s as [|c s]; [exact Hk|].
    cbn [Regex.star_greedy].
    destruct (Regex.test ic cl c); [|exact Hk].
    now destruct (Regex.star_greedy ic cl s k).
  - cbn [Text.forall_chars] in Hw. apply andb_prop in Hw as [Hc Hw].
    cbn [String.append Regex.star_greedy]. rewrite Hc.
    destruct (IH s k Hw Hk) as [res ->]. eauto.
Qed.

Lemma star_lazy_complete cl w : forall s (k : string -> option R),
  Text.forall_chars (Regex.test ic cl) w = true ->
  is_Some (k s) ->
  is_Some (Regex.star_lazy ic cl (w +:+ s) k).
Proof.
  induction w as [|c w IH]; intros s k Hw Hk.
  - cbn [String.append]. destruct Hk as [res Hk].
    destruct s; cbn [Regex.star_lazy]; rewrite Hk; eauto.
  - cbn [Text.forall_chars] in Hw. apply andb_prop in Hw as [Hc Hw].
    cbn [String.append Regex.star_lazy]. rewrite Hc.
    destruct (k (String c (w +:+ s))); [eauto|].
    now apply IH.
Qed.

Lemma star_complete g cl w s (k : string -> option R) :
  Text.forall_chars (Regex.test ic cl) w = true ->
  is_Some (k s) ->
  is_Some (Regex.star ic g cl (w +:+ s) k).
Proof.
  destruct g; [apply star_greedy_complete | apply star_lazy_complete].
Qed.

Lemma plus_complete g cl w s (k : string -> option R) :
  w <> "" ->
  Text.forall_chars (Regex.test ic cl) w = true ->
  is_Some (k s) ->
  is_Some (Regex.plus ic g cl (w +:+ s) k).
Proof.
  destruct w as [|c w]; [congruence|]. intros _ Hw Hk.
  cbn [Text.forall_chars] in Hw. apply andb_prop in Hw as [Hc Hw].
  cbn [String.append Regex.plus]. rewrite Hc.
  now apply star_complete.
Qed.

Lemma rmatch_complete r s cs s' cs' :
  Regex.matches ic subject r s cs s' cs' ->
  forall k : string -> gmap nat string -> option R,
    is_Some (k s' cs') ->
    is_Some (Regex.rmatch ic subject r s cs k).
Proof.
  induction 1 as [s cs Hlen | s cs Hend | cl c s cs Hc
                  | g cl w s cs Hne Hw | g cl w s cs Hw
                  | r s cs | r s cs s' cs' _ IH
                  | r1 r2 s cs s1 cs1 s2 cs2 _ IH1 _ IH2
                  | n r s cs s' cs' _ IH];
    intros k Hk; cbn [Regex.rmatch].
  - now rewrite Hlen, Nat.eqb_refl.
  - destruct Hend as [-> | ->]; exact Hk.
  - now rewrite Hc.
  - now apply plus_complete.
  - now apply star_complete.
  - now destruct (Regex.rmatch ic subject r s cs k).
  - destruct (IH k Hk) as [res ->]. eauto.
  - apply IH1, IH2, Hk.
  - now apply IH.
Qed.
End MatcherComplete.

Lemma re_match_complete r s ic s' m :
  Regex.matches ic s r s ∅ s' m -> is_Some (Regex.re_match r s ic).
Proof.
  intros H. unfold Regex.re_match.
  apply (rmatch_complete ic s r s ∅ s' m H). eauto.
Qed.

(** ** Runs of characters at the end of a string *)

Lemma append_cancel_l a x y : a +:+ x = a +:+ y -> x = y.
Proof.
  induction a as [|c a IH]; cbn [String.append]; [auto|].
  intros [= H]. auto.
Qed.

Lemma append_eq_self a x : a +:+ x = a -> x = "".
Proof.
  intros H. apply (append_cancel_l a). now rewrite append_empty_r.
Qed.

Lemma forall_chars_ext (f g : ascii -> bool) s :
  (forall c, f c = g c) ->
  Text.forall_chars f s = Text.forall_chars g s.
Proof.
  intros H. induction s as [|c s IH]; [reflexivity|].
  cbn [Text.forall_chars]. now rewrite H, IH.
Qed.

Lemma forall_chars_impl (f g : ascii -> bool) s :
  (forall c, f c = true -> g c = true) ->
  Text.forall_chars f s = true -> Text.forall_chars g s = true.
Proof.
  intros H. induction s as [|c s IH]; [reflexivity|].
  cbn [Text.forall_chars]. intros Hs.
  apply andb_prop in Hs as [Hc Hs]. now rewrite (H c Hc), IH.
Qed.

Lemma forall_chars_append f a b :
  Text.forall_chars f (a +:+ b)
  = Text.forall_chars f a && Text.forall_chars f b.
Proof.
  induction a as [|c a IH]; [reflexivity|].
  cbn [String.append Text.forall_chars]. now rewrite IH, andb_assoc.
Qed.

Lemma forall_map_chars f g s :
  Text.forall_chars f (Text.map_chars g s)
  = Text.forall_chars (fun c => f (g c)) s.
Proof.
  induction s as [|c s IH]; [reflexivity|].
  cbn [Text.map_chars Text.forall_chars]. now rewrite IH.
Qed.

Section RunFacts.
Variable p : ascii -> bool.

Lemma rstrip_with_empty s :
  Text.rstrip_with p s = "" -> Text.forall_chars p s = true.
Proof.
  induction s as [|c s IH]; [reflexivity|].
  rewrite rstrip_cons. cbn [Text.forall_chars].
  destruct (Text.rstrip_with p s); [|discriminate].
  destruct (p c); [intros _; now apply IH | discriminate].
Qed.

Lemma rstrip_with_extend b u :
  Text.rstrip_with p u = u -> u <> "" ->
  Text.rstrip_with p (b +:+ u) = b +:+ u.
Proof.
  intros Hu Hne. induction b as [|c b IH]; [exact Hu|].
  cbn [String.append]. rewrite rstrip_cons, IH.
  destruct (b +:+ u) eqn:E; [|reflexivity].
  destruct b; [|discriminate]. now cbn in E.
Qed.

Lemma rstrip_app_all x t :
  Text.forall_chars p t = true ->
  Text.rstrip_with p (x +:+ t) = Text.rstrip_with p x.
Proof.
  intros Ht. induction x as [|c x IH].
  - cbn [String.append]. now apply rstrip_with_all.
  - cbn [String.append]. now rewrite !rstrip_cons, IH.
Qed.

Lemma rstrip_run a t :
  Text.forall_chars p t = true -> Text.rstrip_with p a = a ->
  Text.rstrip_with p (a +:+ t) = a.
Proof. intros Ht Ha. now rewrite rstrip_app_all. Qed.

(** Two ways of cutting a string before its last run of [p] agree. *)
Lemma peel_run a t a' t' :
  a +:+ t = a' +:+ t' ->
  Text.forall_chars p t = true -> Text.forall_chars p t' = true ->
  Text.rstrip_with p a = a -> Text.rstrip_with p a' = a' ->
  a = a' /\ t = t'.
Proof.
  intros E Ht Ht' Ha Ha'.
  assert (a = a') as <-.
  { rewrite <- (rstrip_run a t Ht Ha), E. now apply rstrip_run. }
  split; [reflexivity|]. now apply append_cancel_l in E.
Qed.

Lemma rstrip_app_nonempty a s :
  Text.rstrip_with p s <> "" ->
  Text.rstrip_with p (a +:+ s) = a +:+ Text.rstrip_with p s.
Proof.
  intros Hs. induction a as [|c a IH]; [reflexivity|].
  cbn [String.append]. rewrite rstrip_cons, IH.
  destruct (a +:+ Text.rstrip_with p s) eqn:E; [|reflexivity].
  destruct a; [|discriminate]. now cbn in E.
Qed.

Lemma lstrip_app_all a s :
  Text.forall_chars p a = true ->
  Text.lstrip_with p (a +:+ s) = Text.lstrip_with p s.
Proof.
  induction a as [|c a IH]; [reflexivity|].
  cbn [Text.forall_chars String.append Text.lstrip_with]. intros H.
  apply andb_prop in H as [-> Ha]. auto.
Qed.
End RunFacts.

(** Whitespace around a string does not change what [strip] gives. *)
Lemma strip_pad a s b :
  Text.forall_chars Text.isspace a = true ->
  Text.forall_chars Text.isspace b = true ->
  Text.strip (a +:+ s +:+ b) = Text.strip s.
Proof.
  intros Ha Hb. unfold Text.strip.
  rewrite <- append_assoc, (rstrip_app_all _ _ _ Hb).
  destruct (Text.rstrip_with Text.isspace s) as [|c r] eqn:E.
  - apply rstrip_with_empty in E.
    rewrite rstrip_with_all; [reflexivity|].
    now rewrite forall_chars_append, Ha, E.
  - rewrite rstrip_app_nonempty by (rewrite E; discriminate).
    now rewrite E, lstrip_app_all.
Qed.

(** ** The decimal form of a quantity *)

Lemma uint_digits_acc u : forall acc z,
  z = Z.pos acc ->
  Text.int_digits z (NilEmpty.string_of_uint u)
  = Z.pos (Pos.of_uint_acc u acc).
Proof.
  induction u as [|u IH|u IH|u IH|u IH|u IH|u IH|u IH|u IH|u IH|u IH];
    intros acc z ->;
    cbn [NilEmpty.string_of_uint Text.int_digits Pos.of_uint_acc];
    [reflexivity|..]; apply IH; unfold Text.digit_value;
    cbn [Text.code N_of_ascii N_of_digits]; lia.
Qed.

Lemma uint_digits u :
  Text.int_digits 0 (NilEmpty.string_of_uint u) = Z.of_N (Pos.of_uint u).
Proof.
  induction u as [|u IH|u IH|u IH|u IH|u IH|u IH|u IH|u IH|u IH|u IH];
    cbn [NilEmpty.string_of_uint Text.int_digits Pos.of_uint];
    [reflexivity | exact IH |..];
    cbn [Z.of_N]; apply uint_digits_acc; reflexivity.
Qed.

Lemma uint_all_digits u :
  Text.forall_chars Text.isdigit (NilEmpty.string_of_uint u) = true.
Proof.
  induction u; cbn [NilEmpty.string_of_uint Text.forall_chars];
    [reflexivity|..]; rewrite IHu; reflexivity.
Qed.

(** [str] of a quantity that is not negative is a run of digits, not
    empty, and [int] reads the quantity back from it. *)
Lemma str_int_digits n :
  0 <= n ->
  MTGProxyGUI.str_int n <> ""
  /\ Text.forall_chars Text.isdigit (MTGProxyGUI.str_int n) = true
  /\ Text.int_digits 0 (MTGProxyGUI.str_int n) = n.
Proof.
  intros Hn. unfold MTGProxyGUI.str_int.
  destruct n as [|p|p]; [repeat split; discriminate| |lia].
  cbn [Z.to_int NilEmpty.string_of_int].
  split; [|split].
  - pose proof (DecimalPos.Unsigned.to_uint_nonnil p) as Hnil.
    now destruct (Pos.to_uint p).
  - apply uint_all_digits.
  - now rewrite uint_digits, DecimalPos.Unsigned.of_to.
Qed.

(** ** The lines written by the import are read back *)

Section Build.
Variable ic : bool.
Variable subject : string.
Local Abbreviation matches := (Regex.matches ic subject).

Lemma m_plus g cl s w s' cs :
  s = w +:+ s' -> w <> "" ->
  Text.forall_chars (Regex.test ic cl) w = true ->
  matches (Regex.Plus g cl) s cs s' cs.
Proof. intros -> Hne Hw. now constructor. Qed.

Lemma m_star g cl s w s' cs :
  s = w +:+ s' ->
  Text.forall_chars (Regex.test ic cl) w = true ->
  matches (Regex.Star g cl) s cs s' cs.
Proof. intros -> Hw. now constructor. Qed.

Lemma m_chr cl s c s' cs :
  s = String c s' -> Regex.test ic cl c = true ->
  matches (Regex.Chr cl) s cs s' cs.
Proof. intros -> Hc. now constructor. Qed.

Lemma m_grp n r s cs s' cs' w :
  matches r s cs s' cs' -> s = w +:+ s' ->
  matches (Regex.Grp n r) s cs s' (<[n := w]> cs').
Proof.
  intros H ->. rewrite <- (consumed_append w s') at 2.
  now constructor.
Qed.
End Build.

Lemma no_newline_any name :
  contains_char "010" name = false ->
  Text.forall_chars (Regex.test true Regex.CAny) name = true.
Proof.
  unfold contains_char. intros H. apply negb_false_iff in H. exact H.
Qed.

Lemma blank_tail tail :
  tail = "" \/ tail = String "010" "" ->
  Text.forall_chars Text.isspace tail = true.
Proof. now intros [-> | ->]. Qed.

Lemma head_not_digit xs w u :
  xs = "" \/ xs = "x" \/ xs = "X" ->
  w <> "" -> Text.forall_chars Text.isspace w = true ->
  leading_digits (xs +:+ w +:+ u) = "".
Proof.
  intros [-> | [-> | ->]] Hne Hw; [|reflexivity..].
  cbn [String.append]. now apply spaces_lead_no_digit.
Qed.

(** The simple-format line of a count [d] and a name is accepted by the
    simple pattern, and its groups are the count and the name. *)
Lemma simple_line_parse d name :
  d <> "" -> Text.forall_chars Text.isdigit d = true ->
  name <> "" -> Text.strip name = name ->
  contains_char "010" name = false ->
  exists m g2,
    Regex.re_match simple_pattern (d +:+ "x " +:+ name) true = Some m
    /\ Regex.group m 1 = Some d
    /\ Regex.group m 2 = Some g2 /\ Text.strip g2 = name.
Proof.
  intros Hdne Hd Hne Hstrip Hnl.
  set (line := d +:+ "x " +:+ name).
  assert (is_Some (Regex.re_match simple_pattern line true)) as [m Hm].
  { apply (re_match_complete _ _ _ ""
             (<[2%nat := name]> (<[1%nat := d]> ∅))).
    unfold simple_pattern.
    eapply Regex.M_Cat; [apply Regex.M_Bol; reflexivity|].
    eapply Regex.M_Cat.
    { eapply m_grp with (w := d);
        [eapply m_plus; [reflexivity | exact Hdne | exact Hd]
        |reflexivity]. }
    eapply Regex.M_Cat.
    { apply Regex.M_OptTake. eapply m_chr; reflexivity. }
    eapply Regex.M_Cat.
    { eapply m_plus with (w := " ");
        [reflexivity | discriminate | reflexivity]. }
    eapply Regex.M_Cat.
    { eapply m_grp with (w := name);
        [eapply m_plus;
           [symmetry; apply append_empty_r | exact Hne
           | now apply no_newline_any]
        |symmetry; apply append_empty_r]. }
    apply Regex.M_Eol. now left. }
  exists m. pose proof Hm as Hparts.
  apply simple_match_parts in Hparts
    as (d' & xs & w & g2 & tail & E & Hd'ne & Hd' & Hxs & Hwne & Hw
        & Hg2ne & _ & Htail & H1 & H2).
  exists g2. split; [exact Hm|].
  unfold line in E.
  assert (d' = d) as ->.
  { apply (f_equal leading_digits) in E.
    rewrite (leading_digits_append d ("x " +:+ name) Hd eq_refl) in E.
    rewrite (leading_digits_append d' (xs +:+ w +:+ g2 +:+ tail) Hd'
               (head_not_digit xs w (g2 +:+ tail) Hxs Hwne Hw)) in E.
    congruence. }
  split; [exact H1|]. split; [exact H2|].
  apply append_cancel_l in E.
  destruct Hxs as [-> | [-> | ->]]; cbn [String.append] in E.
  - destruct w as [|c w]; [congruence|].
    cbn [String.append Text.forall_chars] in E, Hw.
    injection E as <- _. discriminate.
  - injection E as E.
    assert (Text.strip (" " +:+ name +:+ "") = Text.strip (w +:+ g2 +:+ tail))
      as Es by (rewrite append_empty_r; cbn [String.append]; now rewrite E).
    rewrite (strip_pad " " name "" eq_refl eq_refl) in Es.
    rewrite (strip_pad w g2 tail Hw (blank_tail tail Htail)) in Es.
    congruence.
  - discriminate.
Qed.

Lemma upper_plain_char c :
  lower_alnum c = true ->
  Regex.test true (Regex.CSet [("A", "Z"); ("a", "z"); ("0", "9")]%char)
    (Text.upper_char c) = true
  /\ Text.lower_char (Text.upper_char c) = c.
Proof. case_ascii c; vm_compute; auto; discriminate. Qed.

Lemma upper_plain sc :
  Text.forall_chars lower_alnum sc = true ->
  Text.forall_chars
    (Regex.test true (Regex.CSet [("A", "Z"); ("a", "z"); ("0", "9")]%char))
    (Text.upper sc) = true
  /\ Text.lower (Text.upper sc) = sc.
Proof.
  induction sc as [|c sc IH]; [auto|].
  cbn [Text.forall_chars Text.upper Text.lower Text.map_chars]. intros H.
  apply andb_prop in H as [Hc Hsc].
  destruct (upper_plain_char c Hc) as [H1 H2], (IH Hsc) as [H3 H4].
  fold (Text.upper sc). fold (Text.lower (Text.upper sc)).
  now rewrite H1, H2, H3, H4.
Qed.

Lemma letter_not_space c :
  Regex.test true (Regex.CSet [("A", "Z")]%char) c = true ->
  negb (Text.isspace c) = true.
Proof. case_ascii c; vm_compute; auto; discriminate. Qed.

Lemma spaces_not_token w :
  Text.forall_chars Text.isspace w = true ->
  Text.forall_chars (fun c => negb (negb (Text.isspace c))) w = true.
Proof.
  intros H. rewrite <- H. apply forall_chars_ext. intros c.
  apply negb_involutive.
Qed.

(** A string that ends with a run of whitespace, not empty, does not
    end with a character that is not whitespace; and the other way
    round. *)
Lemma ends_with_spaces b w :
  w <> "" -> Text.forall_chars Text.isspace w = true ->
  Text.rstrip_with (fun c => negb (Text.isspace c)) (b +:+ w) = b +:+ w.
Proof.
  intros Hne Hw. apply rstrip_with_extend; [|exact Hne].
  now apply rstrip_with_none, spaces_not_token.
Qed.

Lemma ends_with_token b t :
  t <> "" -> Text.forall_chars (fun c => negb (Text.isspace c)) t = true ->
  Text.rstrip_with Text.isspace (b +:+ t) = b +:+ t.
Proof.
  intros Hne Ht. apply rstrip_with_extend; [|exact Hne].
  now apply rstrip_with_none.
Qed.

(** The printing-dialect line of a count [d], a name, a set code and a
    collector number is accepted by the printing-qualified pattern, and
    its groups are these four. *)
Lemma moxfield_line_parse d name sc cn :
  d <> "" -> Text.forall_chars Text.isdigit d = true ->
  name <> "" -> Text.strip name = name ->
  contains_char "010" name = false ->
  plain_code sc = true ->
  cn <> "" -> has_space cn = false -> Text.startswith_char "*" cn = false ->
  exists m g2,
    Regex.re_match moxfield_pattern
      (d +:+ " " +:+ name +:+ " (" +:+ Text.upper sc +:+ ") " +:+ cn) true
    = Some m
    /\ Regex.group m 1 = Some d
    /\ Regex.group m 2 = Some g2 /\ Text.strip g2 = name
    /\ Regex.group m 3 = Some (Text.upper sc)
    /\ Regex.group m 4 = Some cn.
Proof.
  intros Hdne Hd Hne Hstrip Hnl Hsc Hcnne Hcns Hstar.
  apply plain_code_spec in Hsc as [Hscne Hsc].
  destruct (upper_plain sc Hsc) as [HSC _].
  assert (Text.upper sc <> "") as HSCne by (now destruct sc).
  set (SC := Text.upper sc) in *.
  pose proof (no_space_forall cn Hcns) as Hcn.
  set (line := d +:+ " " +:+ name +:+ " (" +:+ SC +:+ ") " +:+ cn).
  assert (is_Some (Regex.re_match moxfield_pattern line true)) as [m Hm].
  { apply (re_match_complete _ _ _ ""
             (<[4%nat := cn]>
                (<[3%nat := SC]>
                   (<[2%nat := name]> (<[1%nat := d]> ∅))))).
    unfold moxfield_pattern.
    eapply Regex.M_Cat; [apply Regex.M_Bol; reflexivity|].
    eapply Regex.M_Cat.
    { eapply m_grp with (w := d);
        [eapply m_plus; [reflexivity | exact Hdne | exact Hd]
        |reflexivity]. }
    eapply Regex.M_Cat; [apply Regex.M_OptSkip|].
    eapply Regex.M_Cat.
    { eapply m_plus with (w := " ");
        [reflexivity | discriminate | reflexivity]. }
    eapply Regex.M_Cat.
    { eapply m_grp with (w := name);
        [eapply m_plus;
           [reflexivity | exact Hne | now apply no_newline_any]
        |reflexivity]. }
    eapply Regex.M_Cat.
    { eapply m_plus with (w := " ");
        [reflexivity | discriminate | reflexivity]. }
    eapply Regex.M_Cat; [eapply m_chr; reflexivity|].
    eapply Regex.M_Cat.
    { eapply m_grp with (w := SC);
        [eapply m_plus; [reflexivity | exact HSCne | exact HSC]
        |reflexivity]. }
    eapply Regex.M_Cat; [eapply m_chr; reflexivity|].
    eapply Regex.M_Cat.
    { eapply m_plus with (w := " ");
        [reflexivity | discriminate | reflexivity]. }
    eapply Regex.M_Cat.
    { eapply m_grp with (w := cn);
        [eapply m_plus;
           [symmetry; apply append_empty_r | exact Hcnne | exact Hcn]
        |symmetry; apply append_empty_r]. }
    eapply Regex.M_Cat; [apply Regex.M_OptSkip|].
    eapply Regex.M_Cat.
    { eapply m_star with (w := ""); reflexivity. }
    apply Regex.M_Eol. now left. }
  exists m. pose proof Hm as Hparts.
  apply moxfield_match_parts in Hparts
    as (d' & xs & w1 & g2 & w2 & g3 & w3 & g4 & foil & w4 & tail & E
        & [Hd'ne Hd'] & Hxs & [Hw1ne Hw1] & _ & [Hw2ne Hw2]
        & (Hg3ne & Hg3 & _) & [Hw3ne Hw3] & [Hg4ne Hg4s] & Hfoil & Hw4
        & Htail & H1 & H2 & H3 & H4).
  exists g2. split; [exact Hm|].
  pose proof (no_space_forall g4 Hg4s) as Hg4.
  unfold Text.lower in Hg3. rewrite forall_map_chars in Hg3.
  assert (Text.forall_chars (fun c => lower_alnum (Text.lower_char c)) SC
          = true) as HSC'.
  { revert HSC. apply forall_chars_impl. intros c Hc.
    now apply alnum_class in Hc as [Hc _]. }
  set (P := d' +:+ xs +:+ w1 +:+ g2 +:+ w2) in *.
  set (Y := d +:+ " " +:+ name +:+ " ").
  assert (line = ((((Y +:+ "(") +:+ SC) +:+ ")") +:+ " ") +:+ cn) as EL.
  { unfold line, Y.
    repeat first [rewrite append_assoc | progress cbn [String.append]].
    reflexivity. }
  assert (line
          = ((((((P +:+ "(") +:+ g3) +:+ ")") +:+ w3) +:+ g4) +:+ foil)
            +:+ (w4 +:+ tail)) as ER.
  { rewrite E. unfold P.
    repeat first [rewrite append_assoc | progress cbn [String.append]].
    reflexivity. }
  assert (Text.forall_chars Text.isspace (w4 +:+ tail) = true) as Hend.
  { now rewrite forall_chars_append, Hw4, (blank_tail tail Htail). }
  rewrite EL in ER. clear EL E.
  assert (foil = "") as ->.
  { destruct Hfoil as [Hf | (w5 & ls & -> & Hw5ne & Hw5 & Hlsne & Hls)];
      [exact Hf | exfalso].
    rewrite <- (append_empty_r (_ +:+ cn)) in ER.
    set (u := String "*" (ls +:+ "*")) in *.
    assert (Text.forall_chars (fun c => negb (Text.isspace c)) u = true)
      as Hu.
    { unfold u. cbn [Text.forall_chars].
      rewrite forall_chars_append.
      rewrite (forall_chars_impl _ _ ls letter_not_space Hls).
      reflexivity. }
    rewrite <- (append_assoc _ w5 u) in ER.
    apply (peel_run Text.isspace) in ER as [ER _];
      [|reflexivity | exact Hend
       |apply ends_with_token; [exact Hcnne | exact Hcn]
       |apply ends_with_token; [discriminate | exact Hu]].
    apply (peel_run (fun c => negb (Text.isspace c))) in ER as [_ ER];
      [|exact Hcn | exact Hu
       |apply ends_with_spaces; [discriminate | reflexivity]
       |apply ends_with_spaces; [exact Hw5ne | exact Hw5]].
    rewrite ER in Hstar. discriminate Hstar. }
  rewrite (append_empty_r (_ +:+ g4)) in ER.
  rewrite <- (append_empty_r (_ +:+ cn)) in ER.
  apply (peel_run Text.isspace) in ER as [ER _];
    [|reflexivity | exact Hend
     |apply ends_with_token; [exact Hcnne | exact Hcn]
     |apply ends_with_token; [exact Hg4ne | exact Hg4]].
  apply (peel_run (fun c => negb (Text.isspace c))) in ER as [ER Ecn];
    [|exact Hcn | exact Hg4
     |apply ends_with_spaces; [discriminate | reflexivity]
     |apply ends_with_spaces; [exact Hw3ne | exact Hw3]].
  apply (peel_run Text.isspace) in ER as [ER _];
    [|reflexivity | exact Hw3
     |apply rstrip_with_extend; [reflexivity | discriminate]
     |apply rstrip_with_extend; [reflexivity | discriminate]].
  apply append_cancel_r in ER.
  apply (peel_run (fun c => lower_alnum (Text.lower_char c))) in ER
    as [ER ESC];
    [|exact HSC' | exact Hg3
     |apply rstrip_with_extend; [reflexivity | discriminate]
     |apply rstrip_with_extend; [reflexivity | discriminate]].
  apply append_cancel_r in ER. unfold P, Y in ER.
  assert (d' = d) as ->.
  { apply (f_equal leading_digits) in ER.
    rewrite (leading_digits_append d (" " +:+ name +:+ " ") Hd eq_refl)
      in ER.
    rewrite (leading_digits_append d' (xs +:+ w1 +:+ g2 +:+ w2) Hd'
               (head_not_digit xs w1 (g2 +:+ w2) Hxs Hw1ne Hw1)) in ER.
    congruence. }
  split; [exact H1|]. split; [exact H2|].
  split; [|split; congruence].
  apply append_cancel_l in ER.
  destruct Hxs as [-> | [-> | ->]]; cbn [String.append] in ER;
    [|discriminate..].
  assert (Text.strip (" " +:+ name +:+ " ") = Text.strip (w1 +:+ g2 +:+ w2))
    as Es by (cbn [String.append]; now rewrite ER).
  rewrite (strip_pad " " name " " eq_refl eq_refl) in Es.
  rewrite (strip_pad w1 g2 w2 Hw1 Hw2) in Es.
  congruence.
Qed.

(** A line that starts with a digit and has no whitespace around it
    passes the guards of the parser and goes to the patterns. *)
Lemma gui_parse_numbered c rest :
  Text.isdigit c = true ->
  Text.strip (String c rest) = String c rest ->
  Gui.parse_card_entry (String c rest)
  = match Regex.re_match moxfield_pattern (String c rest) true with
    | Some mox_match =>
        quantity <- group_int mox_match 1 ;;
        name <- group_strip mox_match 2 ;;
        set_code <- group_strip mox_match 3 ;;
        collector_num <- group_strip mox_match 4 ;;
        Ok (Some name, quantity, Some (Text.lower set_code),
            Some collector_num)
    | None =>
        match Regex.re_match simple_pattern (String c rest) true with
        | Some m =>
            quantity <- group_int m 1 ;;
            name <- group_strip m 2 ;;
            Ok (Some name, quantity, None, None)
        | None => Ok (Some (String c rest), 1, None, None)
        end
    end.
Proof.
  intros Hc Hs. unfold Gui.parse_card_entry. rewrite Hs.
  cbn [String.eqb Text.startswith_char orb].
  rewrite (digit_not_hash c Hc).
  destruct (rstrip_with_keeps_head (fun a => Ascii.eqb a ":") c
              (Text.map_chars Text.lower_char rest)
              (digit_not_colon c Hc)) as [r Hr].
  unfold Text.rstrip_char, Text.lower. cbn [Text.map_chars].
  rewrite (digit_lower c Hc), Hr.
  now rewrite (bool_decide_eq_false_2 _ (digit_head_not_section c r Hc)).
Qed.

Lemma stripped_rstrip name :
  Text.strip name = name -> Text.rstrip_with Text.isspace name = name.
Proof. intros H. pose proof (strip_rstrip name) as R. now rewrite H in R. Qed.

(** A count followed by anything that ends like a stripped string is
    stripped. *)
Lemma count_line_stripped d body last :
  d <> "" -> Text.forall_chars Text.isdigit d = true ->
  last <> "" -> Text.rstrip_with Text.isspace last = last ->
  exists c rest,
    d +:+ body +:+ last = String c rest
    /\ Text.isdigit c = true
    /\ Text.strip (String c rest) = String c rest.
Proof.
  intros Hdne Hd Hlne Hlast.
  destruct d as [|c d]; [congruence|].
  cbn [Text.forall_chars] in Hd. apply andb_prop in Hd as [Hc Hd].
  exists c, (d +:+ body +:+ last). split; [reflexivity|].
  split; [exact Hc|]. unfold Text.strip.
  assert (String c (d +:+ body +:+ last) = (String c d +:+ body) +:+ last)
    as E by (cbn [String.append]; now rewrite append_assoc).
  rewrite E, (rstrip_with_extend _ _ _ Hlast Hlne), <- E.
  cbn [Text.lstrip_with]. now rewrite (digit_not_space c Hc).
Qed.

(** The line written for an importable card is parsed back to it. *)
Lemma parse_rendered r :
  importable r ->
  Gui.parse_card_entry (MTGProxyGUI.render_card r)
  = Ok (Some (Gui.req_name r), Gui.req_quantity r, Gui.req_set_code r,
        Gui.req_collector_number r).
Proof.
  destruct r as [name qty sc cn]. unfold importable, MTGProxyGUI.render_card.
  cbn [Gui.req_name Gui.req_quantity Gui.req_set_code
       Gui.req_collector_number].
  intros (Hne & Hstrip & Hnl & Hq & Hprinting).
  destruct (str_int_digits qty Hq) as (Hdne & Hd & Hval).
  set (d := MTGProxyGUI.str_int qty) in *.
  pose proof (stripped_rstrip name Hstrip) as Hlast.
  destruct sc as [sc|], cn as [cn|]; try contradiction.
  - destruct Hprinting as (Hsc & Hcnne & Hcns & Hstar).
    assert (truthy (Some sc) && truthy (Some cn) = true) as ->.
    { destruct sc; [discriminate Hsc|]. now destruct cn. }
    destruct (moxfield_line_parse d name sc cn Hdne Hd Hne Hstrip Hnl Hsc
                Hcnne Hcns Hstar)
      as (m & g2 & Hm & H1 & H2 & Hg2 & H3 & H4).
    destruct (count_line_stripped d
                (" " +:+ name +:+ " (" +:+ Text.upper sc +:+ ") ") cn
                Hdne Hd Hcnne
                (rstrip_with_none _ _ (no_space_forall cn Hcns)))
      as (c & rest & E & Hc & Hs).
    assert (d +:+ " " +:+ name +:+ " (" +:+ Text.upper sc +:+ ") " +:+ cn
            = String c rest) as E'.
    { rewrite <- E.
      repeat first [rewrite append_assoc | progress cbn [String.append]].
      reflexivity. }
    rewrite E' in *. rewrite (gui_parse_numbered c rest Hc Hs), Hm.
    rewrite (group_int_count m d H1 Hdne Hd),
      (group_strip_value m 2 g2 H2),
      (group_strip_value m 3 _ H3), (group_strip_value m 4 _ H4).
    cbn [bind]. apply plain_code_spec in Hsc as [_ Hsc].
    destruct (upper_plain sc Hsc) as [HSC Hlow].
    apply alnum_run in HSC as [_ HSCs].
    now rewrite Hg2, Hval, (strip_no_space _ HSCs), Hlow,
      (strip_no_space cn Hcns).
  - destruct (simple_line_parse d name Hdne Hd Hne Hstrip Hnl)
      as (m & g2 & Hm & H1 & H2 & Hg2).
    destruct (count_line_stripped d "x " name Hdne Hd Hne Hlast)
      as (c & rest & E & Hc & Hs).
    assert (contains_char "(" (String c rest) = false) as Hparen.
    { rewrite <- E, !contains_char_append, Hprinting, !orb_false_r.
      unfold contains_char. apply negb_false_iff.
      revert Hd. apply forall_chars_impl. intros a.
      case_ascii a; vm_compute; auto. }
    rewrite E in *. rewrite (gui_parse_numbered c rest Hc Hs).
    rewrite (moxfield_needs_parenthesis _ Hparen), Hm.
    rewrite (group_int_count m d H1 Hdne Hd),
      (group_strip_value m 2 g2 H2).
    cbn [bind]. now rewrite Hg2, Hval.
Qed.

Lemma split_char_no_sep sep s :
  contains_char sep s = false -> Text.split_char sep s = [s].
Proof.
  unfold contains_char. intros H. apply negb_false_iff in H.
  induction s as [|c s IH]; [reflexivity|].
  cbn [Text.forall_chars] in H. apply andb_prop in H as [Hc Hs].
  cbn [Text.split_char]. apply negb_true_iff in Hc. rewrite Hc.
  now rewrite (IH Hs).
Qed.

Lemma split_char_app sep s t :
  contains_char sep s = false ->
  Text.split_char sep (s +:+ String sep t) = s :: Text.split_char sep t.
Proof.
  unfold contains_char. intros H. apply negb_false_iff in H.
  induction s as [|c s IH].
  - cbn [String.append Text.split_char]. now rewrite Ascii.eqb_refl.
  - cbn [Text.forall_chars] in H. apply andb_prop in H as [Hc Hs].
    cbn [String.append Text.split_char]. apply negb_true_iff in Hc.
    now rewrite Hc, (IH Hs).
Qed.

(** Splitting at the separator undoes the joining of lines that are
    free of it. *)
Lemma split_concat sep lines :
  lines <> [] ->
  Forall (fun line => contains_char sep line = false) lines ->
  Text.split_char sep (String.concat (String sep "") lines) = lines.
Proof.
  intros Hne Hall. induction Hall as [|x l Hx Hl IH]; [congruence|].
  destruct l as [|y l].
  - cbn [String.concat]. now apply split_char_no_sep.
  - change (String.concat (String sep "") (x :: y :: l))
      with (x +:+ String sep (String.concat (String sep "") (y :: l))).
    rewrite (split_char_app sep x _ Hx), IH; [reflexivity | discriminate].
Qed.

Lemma concat_snoc_blank sep l :
  l <> [] ->
  String.concat sep (l ++ [""]) = String.concat sep l +:+ sep.
Proof.
  intros Hne. induction l as [|x l IH]; [congruence|].
  destruct l as [|y l].
  - cbn [app String.concat]. now rewrite append_empty_r.
  - change (String.concat sep ((x :: y :: l) ++ [""]))
      with (x +:+ sep +:+ String.concat sep ((y :: l) ++ [""])).
    rewrite IH by discriminate.
    change (String.concat sep (x :: y :: l))
      with (x +:+ sep +:+ String.concat sep (y :: l)).
    now rewrite !append_assoc.
Qed.

Lemma parse_lines_snoc_blank lines :
  Gui.parse_lines (lines ++ [""]) = Gui.parse_lines lines.
Proof.
  induction lines as [|line rest IH]; [reflexivity|].
  cbn [app Gui.parse_lines]. now rewrite IH.
Qed.

Lemma parse_lines_rendered cards :
  Forall importable cards ->
  Gui.parse_lines (map MTGProxyGUI.render_card cards) = Ok cards.
Proof.
  induction 1 as [|r rs Hr _ IH]; [reflexivity|].
  cbn [map Gui.parse_lines]. rewrite (parse_rendered r Hr), IH.
  cbn [bind]. destruct Hr as (Hne & _).
  destruct r as [name qty sc cn]. cbn in *.
  now destruct name.
Qed.

Lemma digit_not_newline c :
  Text.isdigit c = true -> negb (Ascii.eqb c "010") = true.
Proof. case_ascii c; vm_compute; auto. Qed.

Lemma token_not_newline c :
  negb (Text.isspace c) = true -> negb (Ascii.eqb c "010") = true.
Proof. case_ascii c; vm_compute; auto. Qed.

Lemma plain_upper_not_newline c :
  lower_alnum c = true ->
  negb (Ascii.eqb (Text.upper_char c) "010") = true.
Proof. case_ascii c; vm_compute; auto. Qed.

Lemma rendered_on_one_line r :
  importable r ->
  contains_char "010" (MTGProxyGUI.render_card r) = false.
Proof.
  destruct r as [name qty sc cn]. unfold importable, MTGProxyGUI.render_card.
  cbn [Gui.req_name Gui.req_quantity Gui.req_set_code
       Gui.req_collector_number].
  intros (_ & _ & Hnl & Hq & Hprinting).
  destruct (str_int_digits qty Hq) as (_ & Hd & _).
  assert (contains_char "010" (MTGProxyGUI.str_int qty) = false) as Hdn.
  { unfold contains_char. apply negb_false_iff.
    revert Hd. apply forall_chars_impl, digit_not_newline. }
  destruct sc as [sc|], cn as [cn|]; try contradiction.
  - destruct Hprinting as (Hsc & Hcnne & Hcns & _).
    assert (truthy (Some sc) && truthy (Some cn) = true) as ->.
    { destruct sc; [discriminate Hsc|]. now destruct cn. }
    apply plain_code_spec in Hsc as [_ Hsc].
    assert (contains_char "010" (Text.upper sc) = false) as Hscn.
    { unfold contains_char, Text.upper. apply negb_false_iff.
      rewrite forall_map_chars.
      revert Hsc. apply forall_chars_impl, plain_upper_not_newline. }
    assert (contains_char "010" cn = false) as Hcnn.
    { unfold contains_char. apply negb_false_iff.
      apply no_space_forall in Hcns.
      revert Hcns. apply forall_chars_impl, token_not_newline. }
    now rewrite !contains_char_append, Hdn, Hnl, Hscn, Hcnn.
  - now rewrite !contains_char_append, Hdn, Hnl.
Qed.

(** X14. The text that the import of a card list writes into the decklist
    area is parsed back to the same list, card by card, when the cards
    are importable and the file name holds no newline: the comment line
    and the blank lines around the cards are skipped. *)
Theorem csv_import_is_read_back (cards : list Gui.CardRequest)
    (basename decklist_text : string) :
  cards <> [] ->
  Forall importable cards ->
  contains_char "010" basename = false ->
  Gui.parse_decklist
    (MTGProxyGUI.decklist_text_get
       (MTGProxyGUI.load_csv_content cards basename decklist_text))
  = Ok cards.
Proof.
  intros Hne Hall Hbase.
  unfold Gui.parse_decklist, MTGProxyGUI.decklist_text_get,
    MTGProxyGUI.load_csv_content.
  destruct cards as [|r rs]; [congruence|].
  set (cards := r :: rs) in *. cbn zeta.
  set (h := "# Imported from " +:+ basename).
  set (lines := map MTGProxyGUI.render_card cards).
  assert (lines <> []) as Hlines by discriminate.
  assert (String.concat (String "010" "")
            (("# Imported from " +:+ basename +:+ String "010" "")
             :: lines) +:+ String "010" ""
          = String.concat (String "010" "")
              (h :: "" :: (lines ++ [""]))) as ->.
  { destruct lines as [|x l] eqn:El; [congruence|].
    change (String.concat (String "010" "")
              (h :: "" :: (x :: l) ++ [""]))
      with (h +:+ String "010" ""
            +:+ "" +:+ String "010" ""
            +:+ String.concat (String "010" "") ((x :: l) ++ [""])).
    rewrite (concat_snoc_blank _ (x :: l)) by discriminate.
    change (String.concat (String "010" "")
              (("# Imported from " +:+ basename +:+ String "010" "")
               :: x :: l))
      with (("# Imported from " +:+ basename +:+ String "010" "")
            +:+ String "010" ""
            +:+ String.concat (String "010" "") (x :: l)).
    unfold h.
    repeat first [rewrite append_assoc | progress cbn [String.append]].
    reflexivity. }
  rewrite split_concat; [|discriminate|].
  - assert (Gui.parse_card_entry h = Ok (None, 0, None, None)) as Hh.
    { unfold Gui.parse_card_entry, h, Text.strip.
      cbn [String.append].
      destruct (rstrip_with_keeps_head Text.isspace "#"
                  (" Imported from " +:+ basename) eq_refl) as [t Ht].
      cbn [String.append] in Ht. rewrite Ht. reflexivity. }
    cbn [Gui.parse_lines]. rewrite Hh. cbn [bind].
    change (Gui.parse_card_entry "") with (@Ok Gui.entry (None, 0, None, None)).
    cbn [bind]. rewrite parse_lines_snoc_blank.
    unfold lines. rewrite (parse_lines_rendered cards Hall). reflexivity.
  - constructor.
    { unfold h. rewrite contains_char_append, Hbase. reflexivity. }
    constructor; [reflexivity|].
    apply Forall_app. split; [|repeat constructor].
    unfold lines. apply Forall_map.
    eapply Forall_impl; [exact Hall|]. apply rendered_on_one_line.
Qed.

Lemma csv_import_witness :
  let cards :=
    [Gui.mkRequest "Sol Ring" 1 (Some "mh3") (Some "532");
     Gui.mkRequest "Lightning Bolt" 4 None None] in
  cards <> []
  /\ Forall importable cards
  /\ contains_char "010" "deck.csv" = false
  /\ MTGProxyGUI.load_csv_content cards "deck.csv" ""
     = String.concat (String "010" "")
         ["# Imported from deck.csv"; ""; "1 Sol Ring (MH3) 532";
          "4x Lightning Bolt"]
  /\ Gui.parse_decklist
       (MTGProxyGUI.decklist_text_get
          (MTGProxyGUI.load_csv_content cards "deck.csv" ""))
     = Ok cards.
Proof.
  intros cards.
  assert (Forall importable cards) as Hall.
  { repeat constructor; try discriminate; reflexivity. }
  split; [discriminate|]. split; [exact Hall|]. split; [reflexivity|].
  split; [vm_compute; reflexivity|].
  apply (csv_import_is_read_back cards "deck.csv" "");
    [discriminate | exact Hall | reflexivity].
Defined.

(** The conditions on an importable card are needed: a negative
    quantity, a name that looks like a printing, and a collector number
    that looks like a foil marker after a name ending in a parenthesis
    are each read back as another card. *)
Lemma import_conditions_are_needed :
  Gui.parse_card_entry
    (MTGProxyGUI.render_card (Gui.mkRequest "Bolt" (-1) None None))
  = Ok (Some "-1x Bolt", 1, None, None)
  /\ Gui.parse_card_entry
       (MTGProxyGUI.render_card (Gui.mkRequest "Erase (x) 1" 2 None None))
     = Ok (Some "Erase", 2, Some "x", Some "1")
  /\ Gui.parse_card_entry
       (MTGProxyGUI.render_card
          (Gui.mkRequest "Foo (a)" 1 (Some "set") (Some "*F*")))
     = Ok (Some "Foo", 1, Some "a", Some "(SET)").
Proof. repeat split; vm_compute; reflexivity. Qed.

(** ** The import of a card list *)

Section MapStrip.
Variable p : ascii -> bool.
Variable f : ascii -> ascii.
Hypothesis p_f : forall c, p (f c) = p c.

Lemma rstrip_with_map s :
  Text.rstrip_with p (Text.map_chars f s)
  = Text.map_chars f (Text.rstrip_with p s).
Proof.
  induction s as [|c s IH]; [reflexivity|].
  cbn [Text.map_chars]. rewrite !rstrip_cons, IH.
  destruct (Text.rstrip_with p s); cbn [Text.map_chars];
    [|reflexivity].
  rewrite p_f. now destruct (p c).
Qed.

Lemma lstrip_with_map s :
  Text.lstrip_with p (Text.map_chars f s)
  = Text.map_chars f (Text.lstrip_with p s).
Proof.
  induction s as [|c s IH]; [reflexivity|].
  cbn [Text.map_chars Text.lstrip_with]. rewrite p_f.
  now destruct (p c).
Qed.
End MapStrip.

Lemma lower_keeps_space c :
  Text.isspace (Text.lower_char c) = Text.isspace c.
Proof. case_ascii c; reflexivity. Qed.

Lemma lower_char_idem c :
  Text.lower_char (Text.lower_char c) = Text.lower_char c.
Proof. case_ascii c; reflexivity. Qed.

Lemma strip_lower s : Text.strip (Text.lower s) = Text.lower (Text.strip s).
Proof.
  unfold Text.strip, Text.lower.
  now rewrite (rstrip_with_map _ _ lower_keeps_space),
    (lstrip_with_map _ _ lower_keeps_space).
Qed.

Lemma lower_idem s : Text.lower (Text.lower s) = Text.lower s.
Proof.
  unfold Text.lower. induction s as [|c s IH]; [reflexivity|].
  cbn [Text.map_chars]. now rewrite lower_char_idem, IH.
Qed.

Lemma or_none_some x y : or_none x = Some y -> y = x /\ x <> "".
Proof. destruct x; [discriminate|]. intros [= <-]. now split. Qed.

(** One complete row: the body returns, and a card it returns is as
    promised. *)
Lemma parse_row_complete row :
  complete_row row ->
  exists card,
    parse_row row = Ok card
    /\ forall r, card = Some r -> imported_card r.
Proof.
  intros Hrow.
  assert (forall key default,
            default <> None -> exists v, row_get row key default = Some v)
    as Hget.
  { intros key default Hd. unfold row_get.
    destruct (row !! key) as [[v|]|] eqn:E; [eauto | | ].
    - now apply Hrow in E.
    - destruct default; [eauto | congruence]. }
  unfold parse_row.
  destruct (Hget "Name" (Some "") ltac:(discriminate)) as [name_field ->].
  destruct (truthy (Some (Text.strip name_field))) eqn:Hname;
    cbn [negb]; [|eexists; split; [reflexivity | discriminate]].
  destruct (Hget "Quantity" (Some "1") ltac:(discriminate)) as [q ->].
  destruct (Hget "Count" (Some q) ltac:(discriminate)) as [count ->].
  destruct (int_of_str count) as [quantity|];
    [|eexists; split; [reflexivity | discriminate]].
  destruct (Hget "Set" (Some "") ltac:(discriminate)) as [st ->].
  destruct (Hget "Edition" (Some st) ltac:(discriminate)) as [edition ->].
  destruct (Hget "Number" (Some "") ltac:(discriminate)) as [nb ->].
  destruct (Hget "Collector Number" (Some nb) ltac:(discriminate))
    as [number ->].
  eexists. split; [reflexivity|]. intros r [= <-].
  unfold imported_card.
  cbn [Gui.req_name Gui.req_set_code Gui.req_collector_number].
  split; [now apply truthy_name|]. split; [apply strip_idem|]. split.
  - destruct (or_none (Text.lower (Text.strip edition))) as [sc|] eqn:E;
      [|exact I].
    apply or_none_some in E as [-> Hne]. split; [exact Hne|].
    split; [apply lower_idem|]. now rewrite strip_lower, strip_idem.
  - destruct (or_none (Text.strip number)) as [cn|] eqn:E; [|exact I].
    apply or_none_some in E as [-> Hne]. split; [exact Hne|].
    apply strip_idem.
Qed.

(** X15. On rows that are complete the import returns, with at most one card
    per row, and every card it returns has a name that is not empty and
    is stripped, a set code that is absent or not empty, stripped and in
    lowercase, and a collector number that is absent or not empty and
    stripped; rows without a name or with a count that is not an integer
    are passed over.  A row that is too short for its name column makes
    the import raise. *)
Theorem csv_rows_give_clean_cards (rows : list Row) :
  (Forall complete_row rows ->
   exists cards,
     parse_moxfield_csv rows = Ok cards
     /\ Forall imported_card cards
     /\ (length cards <= length rows)%nat)
  /\ (forall row rest,
        complete_row row ->
        (row_get row "Name" (Some "") = Some ""
         \/ (exists count,
               row_get row "Count" (row_get row "Quantity" (Some "1"))
               = Some count
               /\ int_of_str count = None)) ->
        parse_moxfield_csv (row :: rest) = parse_moxfield_csv rest)
  /\ (forall row rest,
        row !! "Name" = Some None ->
        parse_moxfield_csv (row :: rest) = Raise "AttributeError").
Proof.
  split; [|split].
  - induction 1 as [|row rest Hrow _ (cards & IH & Hall & Hlen)].
    + exists []. repeat split; [constructor | reflexivity].
    + destruct (parse_row_complete row Hrow) as (card & Hcard & Hok).
      cbn [parse_moxfield_csv]. rewrite Hcard, IH. cbn [bind].
      eexists. split; [reflexivity|].
      destruct card as [r|]; (split; [|cbn [length]; lia]);
        [constructor; auto | exact Hall].
  - intros row rest Hrow Hskip.
    assert (parse_row row = Ok None) as Hnone.
    { unfold parse_row.
      destruct Hskip as [-> | (count & Hc & Hint)]; [reflexivity|].
      destruct (row_get row "Name" (Some "")) as [name_field|] eqn:En.
      - destruct (negb (truthy (Some (Text.strip name_field))));
          [reflexivity|]. now rewrite Hc, Hint.
      - exfalso. unfold row_get in En.
        destruct (row !! "Name") as [[v|]|] eqn:E; try discriminate.
        now apply Hrow in E. }
    cbn [parse_moxfield_csv]. rewrite Hnone. cbn [bind].
    now destruct (parse_moxfield_csv rest).
  - intros row rest Hname. cbn [parse_moxfield_csv].
    unfold parse_row, row_get. now rewrite Hname.
Qed.

Lemma csv_rows_witness :
  let row : Row :=
    <["Name" := Some " Sol Ring "]>
      (<["Count" := Some "1"]>
         (<["Edition" := Some "MH3"]>
            (<["Collector Number" := Some "532"]> ∅))) in
  let bad : Row := <["Name" := Some "Bolt"]> (<["Count" := Some "x"]> ∅) in
  Forall complete_row [row; bad]
  /\ parse_moxfield_csv [row; bad]
     = Ok [Gui.mkRequest "Sol Ring" 1 (Some "mh3") (Some "532")].
Proof.
  intros row bad.
  assert (Forall complete_row [row; bad]) as Hrows.
  { apply List.Forall_cons; [|apply List.Forall_cons; [|apply List.Forall_nil]];
      intros key H; unfold row, bad in H;
      repeat (apply lookup_insert_Some in H as [[_ [=]] | [_ H]]);
      now apply lookup_empty_Some in H. }
  split; [exact Hrows|].
  destruct (proj1 (csv_rows_give_clean_cards [row; bad]) Hrows)
    as (cards & Hparse & _).
  rewrite Hparse. f_equal.
  assert (parse_moxfield_csv [row; bad]
          = Ok [Gui.mkRequest "Sol Ring" 1 (Some "mh3") (Some "532")])
    as Hval by (vm_compute; reflexivity).
  congruence.
Defined.
